(** * A shallow embedding of [web_crawler.py]

    The development models the [SimpleCrawler] class: the URL scope test
    [is_valid_url], the two page extractors [get_links] and [extract_text],
    the title expression of the page record and the [crawl] loop.

    Python [str] values are modelled as [string]; a character is a code point
    below 256, and the character classes below are Python's ones restricted
    to that range.  The libraries the script calls (requests, BeautifulSoup,
    urllib.parse, time) are interfaces whose operations are parameters of
    the model. *)

From Stdlib Require Import ZArith NArith Lia Ascii String List Bool.
From stdpp Require Import base gmap sets list strings.

Import ListNotations.
Local Open Scope string_scope.
Local Open Scope Z_scope.

(** ** Python string operations used by [extract_text] *)

Module PyStr.

(** [str.isspace] on one character: TAB..CR, FS..US, SPACE, NEL, NBSP. *)
Definition isspace (c : ascii) : bool :=
  let n := N_of_ascii c in
  ((9 <=? n) && (n <=? 13) || (28 <=? n) && (n <=? 31) ||
   (n =? 32) || (n =? 133) || (n =? 160))%N.

(** The line boundaries of [str.splitlines]: LF, VT, FF, CR, FS, GS, RS, NEL. *)
Definition is_linebreak (c : ascii) : bool :=
  let n := N_of_ascii c in
  ((10 <=? n) && (n <=? 13) || (28 <=? n) && (n <=? 30) || (n =? 133))%N.

Definition CR : ascii := ascii_of_N 13.
Definition LF : ascii := ascii_of_N 10.
Definition TAB : ascii := ascii_of_N 9.
Definition SP : ascii := " "%char.

(** [cur] holds the characters of the line being read; a line is emitted at
    each boundary (CR LF counting as one) and, when non-empty, at the end. *)
Fixpoint splitlines_from (cur s : string) : list string :=
  match s with
  | EmptyString => match cur with EmptyString => [] | _ => [cur] end
  | String c s' =>
      if is_linebreak c then
        cur :: match s' with
               | String c' s'' =>
                   if Ascii.eqb c CR && Ascii.eqb c' LF
                   then splitlines_from "" s''
                   else splitlines_from "" s'
               | EmptyString => []
               end
      else splitlines_from (cur ++ String c "") s'
  end.

(** [s.splitlines()] *)
Definition splitlines (s : string) : list string := splitlines_from "" s.

Fixpoint lstrip (s : string) : string :=
  match s with
  | String c s' => if isspace c then lstrip s' else s
  | EmptyString => ""
  end.

Fixpoint rstrip (s : string) : string :=
  match s with
  | String c s' =>
      match rstrip s' with
      | EmptyString => if isspace c then "" else String c ""
      | r => String c r
      end
  | EmptyString => ""
  end.

(** [s.strip()] *)
Definition strip (s : string) : string := rstrip (lstrip s).

(** [skip] counts the characters of a separator occurrence still to be
    passed over; occurrences are found left to right and do not overlap. *)
Fixpoint split_from (sep : string) (skip : nat) (cur s : string) : list string :=
  match s with
  | EmptyString => [cur]
  | String c s' =>
      match skip with
      | S k => split_from sep k cur s'
      | O =>
          if String.prefix sep s
          then cur :: split_from sep (Nat.pred (String.length sep)) "" s'
          else split_from sep O (cur ++ String c "") s'
      end
  end.

(** [s.split(sep)] for a non-empty separator. *)
Definition split (sep s : string) : list string := split_from sep O "" s.

(** [sep.join(l)] *)
Fixpoint join (sep : string) (l : list string) : string :=
  match l with
  | [] => ""
  | [x] => x
  | x :: l' => x ++ sep ++ join sep l'
  end.

(** [bool(s)] for a string. *)
Definition truthy (s : string) : bool :=
  match s with EmptyString => false | _ => true end.

End PyStr.

(** ** Exceptions *)

(** The two handlers of [crawl] tell [requests.RequestException] (and its
    subclasses) from every other [Exception]. *)
Inductive exn : Type :=
  | RequestException (msg : string)
  | Exception (msg : string).

Inductive result (A : Type) : Type :=
  | Ok (a : A)
  | Raise (e : exn).
Arguments Ok {A} a.
Arguments Raise {A} e.

Definition rbind {A B} (r : result A) (k : A -> result B) : result B :=
  match r with
  | Ok a => k a
  | Raise e => Raise e
  end.

Declare Scope result_scope.
Delimit Scope result_scope with result.
Notation "'let?' x ':=' r 'in' k" := (rbind r (fun x => k))
  (at level 10, x pattern, r at level 100, k at level 200) : result_scope.
Local Open Scope result_scope.

(** ** The parse tree of BeautifulSoup *)

(** The classes of text nodes.  [get_text] keeps the strings of class
    [NavigableString] and [CData] only; comments, declarations and the
    strings of special containers are of other classes. *)
Inductive string_class : Type :=
  | PlainString
  | CData
  | Comment
  | OtherString.

#[warnings="-register-all"]
Inductive element : Type :=
  | NavigableString (cls : string_class) (s : string)
  | Tag (name : string) (attrs : list (string * string)) (contents : list element).

(** A parsed document: the contents of the [BeautifulSoup] object. *)
Definition soup : Type := list element.

Module Bs4.

Definition is_text_class (c : string_class) : bool :=
  match c with
  | PlainString | CData => true
  | Comment | OtherString => false
  end.

(** [tag.get(key)] *)
Fixpoint get_attr (key : string) (attrs : list (string * string)) : option string :=
  match attrs with
  | [] => None
  | (k, v) :: rest => if String.eqb k key then Some v else get_attr key rest
  end.

Definition name_in (names : list string) (n : string) : bool :=
  existsb (String.eqb n) names.

(** The tags of [e] (itself included) that satisfy [p], in document order. *)
Fixpoint find_all_in (p : string -> list (string * string) -> bool) (e : element)
  : list element :=
  match e with
  | NavigableString _ _ => []
  | Tag n a cs =>
      (if p n a then [e] else []) ++ flat_map (find_all_in p) cs
  end.

(** [soup.find_all(...)], recursive. *)
Definition find_all (p : string -> list (string * string) -> bool) (d : soup)
  : list element :=
  flat_map (find_all_in p) d.

(** [soup.find(...)]: the first match, or [None]. *)
Definition find (p : string -> list (string * string) -> bool) (d : soup)
  : option element :=
  head (find_all p d).

(** [soup.title] *)
Definition title (d : soup) : option element :=
  find (fun n _ => String.eqb n "title") d.

(** The net effect of calling [decompose()] on every tag whose name is in
    [names]: those tags leave the tree with all they contain. *)
Fixpoint remove_tags (names : list string) (e : element) : list element :=
  match e with
  | NavigableString _ _ => [e]
  | Tag n a cs =>
      if name_in names n then []
      else [Tag n a (flat_map (remove_tags names) cs)]
  end.

Definition decompose_all (names : list string) (d : soup) : soup :=
  flat_map (remove_tags names) d.

Fixpoint strings_in (e : element) : list string :=
  match e with
  | NavigableString c s => if is_text_class c then [s] else []
  | Tag _ _ cs => flat_map strings_in cs
  end.

(** [soup.get_text()] with the default empty separator. *)
Definition get_text (d : soup) : string :=
  String.concat "" (flat_map strings_in d).

(** [element.string]: a string is its own [.string]; a tag whose one child
    is a string has that string; a tag whose one child is a tag asks the
    child, by a nested call of the property; any other tag has [None].
    [room] is the number of nested calls the interpreter's stack still
    allows: with none left, the call raises [RecursionError]. *)
Fixpoint string_of (room : nat) (e : element) {struct e}
  : result (option string) :=
  match e with
  | NavigableString _ s => Ok (Some s)
  | Tag _ _ [NavigableString _ s] => Ok (Some s)
  | Tag _ _ [Tag _ _ _ as child] =>
      match room with
      | O => Raise (Exception "RecursionError: maximum recursion depth exceeded")
      | S room' => string_of room' child
      end
  | Tag _ _ _ => Ok None
  end.

End Bs4.

(** ** The libraries the crawler calls *)

(** [urllib.parse]: the two components of [urlparse(url)] that the script
    reads, and [urljoin].  Both may raise [ValueError]. *)
Record ParseResult : Type := { scheme : string; netloc : string }.

Class UrlLib : Type := {
  urlparse : string -> result ParseResult;
  urljoin : string -> string -> result string
}.

(** [bs4] as the interpreter runs it: [BeautifulSoup(html, 'html.parser')],
    and the number of nested calls of [.string] that the recursion limit
    leaves room for where [crawl] reads the title. *)
Class HtmlParser : Type := {
  BeautifulSoup : string -> result soup;
  recursion_room : nat
}.

(** ** The page extractors of [SimpleCrawler] *)

Section Extractors.
Context {U : UrlLib} {P : HtmlParser}.

Definition is_valid_url (domain url : string) : result bool :=
  let? parsed := urlparse url in
  Ok (PyStr.truthy (netloc parsed) && PyStr.truthy (scheme parsed)
      && String.eqb (netloc parsed) domain).

Definition has_href : string -> list (string * string) -> bool :=
  fun n a => String.eqb n "a" && bool_decide (is_Some (Bs4.get_attr "href" a)).

(** [link['href']] *)
Definition href_of (e : element) : result string :=
  match e with
  | Tag _ a _ =>
      match Bs4.get_attr "href" a with
      | Some h => Ok h
      | None => Raise (Exception "KeyError: 'href'")
      end
  | NavigableString _ _ => Raise (Exception "TypeError")
  end.

(** The [for link in ...] loop of [get_links]; [links] is the list built so far. *)
Fixpoint get_links_loop (domain url : string) (anchors : list element)
  (links : list string) : result (list string) :=
  match anchors with
  | [] => Ok links
  | link :: rest =>
      let? href := href_of link in
      let? absolute_url := urljoin url href in
      let? valid := is_valid_url domain absolute_url in
      get_links_loop domain url rest
        (if valid then links ++ [absolute_url] else links)
  end.

Definition get_links_soup (domain url : string) (d : soup) : result (list string) :=
  get_links_loop domain url (Bs4.find_all has_href d) [].

Definition get_links (domain url html : string) : result (list string) :=
  let? d := BeautifulSoup html in
  get_links_soup domain url d.

(** The three cleaning lines of [extract_text]. *)
Definition clean_text (text : string) : string :=
  let lines := map PyStr.strip (PyStr.splitlines text) in
  let chunks :=
    flat_map (fun line => map PyStr.strip (PyStr.split "  " line)) lines in
  PyStr.join " " (List.filter PyStr.truthy chunks).

Definition extract_text_soup (d : soup) : string :=
  clean_text (Bs4.get_text (Bs4.decompose_all ["script"; "style"] d)).

Definition extract_text (html : string) : result string :=
  let? d := BeautifulSoup html in
  Ok (extract_text_soup d).

(** The value of the ['title'] entry: [None] is Python's [None]. *)
Definition title_of_soup (d : soup) : result (option string) :=
  match Bs4.title d with
  | Some t => Bs4.string_of recursion_room t
  | None => Raise (Exception "AttributeError: 'NoneType' object has no attribute 'string'")
  end.

(** [X.title.string if X.title else 'No title'], each [X] a fresh parse. *)
Definition page_title (html : string) : result (option string) :=
  let? d := BeautifulSoup html in
  match Bs4.title d with
  | Some _ => let? d' := BeautifulSoup html in title_of_soup d'
  | None => Ok (Some "No title")
  end.

End Extractors.

(** ** requests and time *)

Record Response : Type := { status_code : Z; text : string }.

(** [requests.get(url, headers=..., timeout=10)] against a network in state
    [W]: the call moves the network to a new state and returns a response or
    raises. *)
Class Http (W : Type) : Type := {
  requests_get : W -> string -> W * result Response
}.

(** [response.raise_for_status()]: [HTTPError], a [RequestException], for the
    client and server error codes. *)
Definition raise_for_status (r : Response) : result unit :=
  if (400 <=? status_code r) && (status_code r <? 600)
  then Raise (RequestException "HTTPError")
  else Ok tt.

(** The longest suspension [time.sleep] takes, in seconds: the interpreter
    keeps the length as a 64-bit count of nanoseconds. *)
Definition sleep_limit : Z := 9223372036.

(** [time.sleep(secs)] raises on this length. *)
Definition sleep_refused (secs : Z) : bool :=
  (secs <? 0) || (sleep_limit <? secs).

(** [time.sleep(secs)] refuses a negative length with [ValueError] and a
    length above the limit with [OverflowError]. *)
Definition time_sleep (secs : Z) : result unit :=
  if secs <? 0
  then Raise (Exception "ValueError: sleep length must be non-negative")
  else if sleep_limit <? secs
  then Raise (Exception "OverflowError: timestamp too large to convert to C _PyTime_t")
  else Ok tt.

(** ** The crawler object and the state of a run *)

Record SimpleCrawler : Type := {
  start_url : string;
  max_pages : Z;
  delay : Z;
  visited : gset string;
  to_visit : list string;
  domain : string
}.

Record PageRecord : Type := {
  page_url : string;
  page_title_field : option string;
  text_length : nat;
  links_found : nat
}.

(** What a run does to the outside, in order: suspensions, requests, and the
    appends to the frontier. *)
Inductive event : Type :=
  | EvSleep (secs : Z)
  | EvGet (url : string)
  | EvAppend (url : string).

Record state (W : Type) : Type := {
  self : SimpleCrawler;
  pages_data : list PageRecord;
  world : W;
  trace : list event
}.
Arguments self {W} s.
Arguments pages_data {W} s.
Arguments world {W} s.
Arguments trace {W} s.
Arguments Build_state {W} self pages_data world trace.

Definition set_visited (v : gset string) (c : SimpleCrawler) : SimpleCrawler :=
  {| start_url := start_url c; max_pages := max_pages c; delay := delay c;
     visited := v; to_visit := to_visit c; domain := domain c |}.

Definition set_to_visit (q : list string) (c : SimpleCrawler) : SimpleCrawler :=
  {| start_url := start_url c; max_pages := max_pages c; delay := delay c;
     visited := visited c; to_visit := q; domain := domain c |}.

Definition on_self {W} (f : SimpleCrawler -> SimpleCrawler) (st : state W) : state W :=
  {| self := f (self st); pages_data := pages_data st;
     world := world st; trace := trace st |}.

Definition log {W} (e : event) (st : state W) : state W :=
  {| self := self st; pages_data := pages_data st;
     world := world st; trace := trace st ++ [e] |}.

Definition set_world {W} (w : W) (st : state W) : state W :=
  {| self := self st; pages_data := pages_data st;
     world := w; trace := trace st |}.

Definition add_page {W} (p : PageRecord) (st : state W) : state W :=
  {| self := self st; pages_data := pages_data st ++ [p];
     world := world st; trace := trace st |}.

(** ** Statements that change the state and may raise *)

Definition M (W A : Type) : Type := state W -> result A * state W.

Definition ret {W A} (a : A) : M W A := fun st => (Ok a, st).

Definition bind {W A B} (m : M W A) (k : A -> M W B) : M W B :=
  fun st =>
    match m st with
    | (Ok a, st') => k a st'
    | (Raise e, st') => (Raise e, st')
    end.

Definition lift {W A} (r : result A) : M W A := fun st => (r, st).
Definition get {W} : M W (state W) := fun st => (Ok st, st).
Definition modify {W} (f : state W -> state W) : M W unit := fun st => (Ok tt, f st).

Declare Scope stmt_scope.
Delimit Scope stmt_scope with stmt.
Notation "'let!' x ':=' m 'in' k" := (bind m (fun x => k))
  (at level 10, x name, m at level 100, k at level 200) : stmt_scope.
Notation "'do!' m 'in' k" := (bind m (fun _ => k))
  (at level 10, m at level 100, k at level 200) : stmt_scope.

Fixpoint for_each {W A} (l : list A) (f : A -> M W unit) : M W unit :=
  match l with
  | [] => ret tt
  | x :: l' => bind (f x) (fun _ => for_each l' f)
  end.

(** [bool(l)] for a list or deque. *)
Definition PyList_truthy {A} (l : list A) : bool :=
  match l with [] => false | _ => true end.

Section Crawl.
Context {U : UrlLib} {P : HtmlParser} {W : Type} {H : Http W}.
Local Open Scope stmt_scope.

(** [SimpleCrawler.__init__] *)
Definition init (start : string) (max d : Z) : result SimpleCrawler :=
  let? parsed := urlparse start in
  Ok {| start_url := start; max_pages := max; delay := d;
        visited := ∅; to_visit := [start]; domain := netloc parsed |}.

(** [time.sleep(secs)] inside a run. *)
Definition sleep (secs : Z) : M W unit :=
  do! lift (time_sleep secs) in
  modify (log (EvSleep secs)).

(** [requests.get(url, ...)] inside a run. *)
Definition http_get (url : string) : M W Response :=
  fun st =>
    let (w', r) := requests_get (world st) url in
    (r, set_world w' (log (EvGet url) st)).

(** [self.to_visit.append(link)] *)
Definition append_link (link : string) (st : state W) : state W :=
  log (EvAppend link)
    (on_self (fun c => set_to_visit (to_visit c ++ [link]) c) st).

(** The body of [for link in links]. *)
Definition enqueue (link : string) : M W unit :=
  let! st := get in
  if bool_decide (link ∉ visited (self st)) && bool_decide (link ∉ to_visit (self st))
  then modify (append_link link)
  else ret tt.

(** The statements under [try] for the dequeued [url]. *)
Definition try_body (url : string) : M W unit :=
  let! st := get in
  do! (if bool_decide (visited (self st) ≠ ∅)
       then sleep (delay (self st)) else ret tt) in
  let! response := http_get url in
  do! lift (raise_for_status response) in
  do! modify (on_self (fun c => set_visited (visited c ∪ {[url]}) c)) in
  let html := text response in
  let! txt := lift (extract_text html) in
  let! st1 := get in
  let! links := lift (get_links (domain (self st1)) url html) in
  let! title := lift (page_title html) in
  do! modify (add_page {| page_url := url; page_title_field := title;
                          text_length := String.length txt;
                          links_found := length links |}) in
  for_each links enqueue.

(** One turn of the [while] loop.  Both handlers only print, so whatever the
    statements under [try] changed before raising stays changed.  The loop
    condition keeps [popleft] away from an empty frontier. *)
Definition iteration (st : state W) : state W :=
  match to_visit (self st) with
  | [] => st
  | url :: rest =>
      let st := on_self (set_to_visit rest) st in
      if bool_decide (url ∈ visited (self st)) then st
      else snd (try_body url st)
  end.

(** The condition of the [while] loop. *)
Definition loop_cond (st : state W) : bool :=
  PyList_truthy (to_visit (self st))
  && (Z.of_nat (size (visited (self st))) <? max_pages (self st)).

(** The [while] loop, run for at most [fuel] turns. *)
Fixpoint crawl_loop (fuel : nat) (st : state W) : option (state W) :=
  if loop_cond st then
    match fuel with
    | O => None
    | S fuel' => crawl_loop fuel' (iteration st)
    end
  else Some st.

(** The state in which [crawl] enters its loop. *)
Definition enter (c : SimpleCrawler) (w : W) : state W :=
  {| self := c; pages_data := []; world := w; trace := [] |}.

(** [SimpleCrawler.crawl]: the final state holds the returned [pages_data]. *)
Definition crawl (fuel : nat) (c : SimpleCrawler) (w : W) : option (state W) :=
  crawl_loop fuel (enter c w).

End Crawl.

(** ** [RobotsTxtChecker.can_fetch] *)

Section Robots.
Context {U : UrlLib} {W : Type} {H : Http W}.

(** The URL the check requests: [f"{parsed.scheme}://{parsed.netloc}/robots.txt"]. *)
Definition robots_url (parsed : ParseResult) : string :=
  scheme parsed ++ "://" ++ netloc parsed ++ "/robots.txt".

(** [urlparse] is called outside the [try]; inside it, the handler takes
    [requests.RequestException] only. *)
Definition can_fetch (w : W) (url : string) : W * result bool :=
  match urlparse url with
  | Raise e => (w, Raise e)
  | Ok parsed =>
      match requests_get w (robots_url parsed) with
      | (w', Ok response) =>
          if status_code response =? 200 then (w', Ok true) else (w', Ok true)
      | (w', Raise (RequestException _)) => (w', Ok true)
      | (w', Raise (Exception msg)) => (w', Raise (Exception msg))
      end
  end.

End Robots.

(** ** The sitemap of [exemple_3_sitemap_generator] *)

Module Sitemap.

(** [s * n] *)
Fixpoint repeat_str (s : string) (n : nat) : string :=
  match n with
  | O => ""
  | S n' => s ++ repeat_str s n'
  end.

Definition NL : string := String PyStr.LF "".

(** The title of a record inside an f-string: [None] prints as its name. *)
Definition format_title (t : option string) : string :=
  match t with
  | Some s => s
  | None => "None"
  end.

Definition header : string := "SITEMAP" ++ NL ++ repeat_str "=" 50 ++ NL ++ NL.

(** The text the loop builds from the records.  [bullet] is the one-character
    string that opens each title line; the character (U+2022) lies outside
    the range of the character model, so the string is a parameter. *)
Definition sitemap (bullet : string) (data : list PageRecord) : string :=
  fold_left
    (fun text page =>
       (text ++ (bullet ++ " " ++ format_title (page_title_field page) ++ NL))
       ++ ("  " ++ page_url page ++ NL ++ NL))
    data header.

End Sitemap.

(** ** A sample site

    A small concrete instance of the three libraries, for running the model.
    [Sample.urls] splits and resolves the way [urllib.parse] does on the
    URLs used here: lower-case absolute URLs, absolute-path references, and
    a bracket left open in the host, which [urlparse] refuses. *)

Module Sample.

Fixpoint until_any (stops : list ascii) (s : string) : string :=
  match s with
  | EmptyString => ""
  | String c s' =>
      if existsb (Ascii.eqb c) stops then "" else String c (until_any stops s')
  end.

Fixpoint has_char (c : ascii) (s : string) : bool :=
  match s with
  | EmptyString => false
  | String c' s' => Ascii.eqb c c' || has_char c s'
  end.

Definition drop (n : nat) (s : string) : string :=
  String.substring n (String.length s - n) s.

(** scheme ":" "//" netloc, the netloc ending at the first of [/ ? #]. *)
Definition split_url (url : string) : result ParseResult :=
  let sch := until_any [":"%char] url in
  let rest := drop (String.length sch) url in
  if String.prefix "://" rest && PyStr.truthy sch then
    let loc := until_any ["/"%char; "?"%char; "#"%char] (drop 3 rest) in
    if xorb (has_char "["%char loc) (has_char "]"%char loc)
    then Raise (Exception "ValueError: Invalid IPv6 URL")
    else Ok {| scheme := sch; netloc := loc |}
  else Ok {| scheme := ""; netloc := "" |}.

(** An absolute reference stands for itself, an absolute path replaces the
    path of the base, an empty reference gives the base.  The pages of the
    sample use no other form, and the resolver says so if it meets one. *)
Definition join_url (base ref : string) : result string :=
  let? b := split_url base in
  let? r := split_url ref in
  if PyStr.truthy (scheme r) then Ok ref
  else if String.prefix "/" ref then Ok (scheme b ++ "://" ++ netloc b ++ ref)
  else if PyStr.truthy ref then Raise (Exception "not resolved by the sample")
  else Ok base.

#[export] Instance urls : UrlLib :=
  {| urlparse := split_url; urljoin := join_url |}.

Definition a_tag (href label : string) : element :=
  Tag "a" [("href", href)] [NavigableString PlainString label].

Definition page (title : list element) (body : list element) : soup :=
  [Tag "html" [] [Tag "head" [] title; Tag "body" [] body]].

Definition title_tag (t : string) : list element :=
  [Tag "title" [] [NavigableString PlainString t]].

Definition home_html : string :=
  "<html><head><title>Home</title></head><body><a href='/a'>A</a><a href='/b'>B</a><a href='http://other.org/'>O</a></body></html>".
Definition a_html : string :=
  "<html><head><title>A</title></head><body><a href='/c'>C</a></body></html>".
Definition b_html : string :=
  "<html><head><title>B</title></head><body>b</body></html>".
Definition c_html : string :=
  "<html><head><title>C</title></head><body>c</body></html>".
Definition broken_html : string :=
  "<html><head><title>X</title></head><body><a href='http://[::1'>x</a></body></html>".

Definition twice_html : string :=
  "<a href='/a'>one</a><a href='/a'>two</a>".
Definition empty_title_html : string :=
  "<html><head><title></title></head><body>x</body></html>".
Definition tabbed_text : string :=
  String "a" (String PyStr.TAB (String PyStr.TAB "b")).
Definition tabbed_html : string := "<p>" ++ tabbed_text ++ "</p>".

(** The trees [html.parser] builds for the pages of the site; any other
    input is taken as text without markup. *)
Definition parse (html : string) : result soup :=
  if String.eqb html "" then Ok []
  else if String.eqb html twice_html then
    Ok [a_tag "/a" "one"; a_tag "/a" "two"]
  else if String.eqb html empty_title_html then
    Ok (page [Tag "title" [] []] [NavigableString PlainString "x"])
  else if String.eqb html tabbed_html then
    Ok [Tag "p" [] [NavigableString PlainString tabbed_text]]
  else if String.eqb html home_html then
    Ok (page (title_tag "Home")
          [a_tag "/a" "A"; a_tag "/b" "B"; a_tag "http://other.org/" "O"])
  else if String.eqb html a_html then
    Ok (page (title_tag "A") [a_tag "/c" "C"])
  else if String.eqb html b_html then
    Ok (page (title_tag "B") [NavigableString PlainString "b"])
  else if String.eqb html c_html then
    Ok (page (title_tag "C") [NavigableString PlainString "c"])
  else if String.eqb html broken_html then
    Ok (page (title_tag "X") [a_tag "http://[::1" "x"])
  else Ok [NavigableString PlainString html].

#[export] Instance parser : HtmlParser :=
  {| BeautifulSoup := parse; recursion_room := 900 |}.

Definition home : string := "http://example.com/".

(** The site: the network state counts the requests made. *)
Definition serve (url : string) : result Response :=
  if String.eqb url home then Ok {| status_code := 200; text := home_html |}
  else if String.eqb url "http://example.com/a" then
    Ok {| status_code := 200; text := a_html |}
  else if String.eqb url "http://example.com/b" then
    Ok {| status_code := 200; text := b_html |}
  else if String.eqb url "http://example.com/c" then
    Ok {| status_code := 200; text := c_html |}
  else if String.eqb url "http://example.com/broken" then
    Ok {| status_code := 200; text := broken_html |}
  else if String.eqb url "http://example.com/untitled" then
    Ok {| status_code := 200; text := empty_title_html |}
  else if String.eqb url "http://example.com/cached" then
    Ok {| status_code := 304; text := "" |}
  else if String.eqb url "http://example.com/missing" then
    Ok {| status_code := 404; text := "Not Found" |}
  else Raise (RequestException "ConnectionError").

#[export] Instance site : Http nat :=
  {| requests_get := fun n url => (S n, serve url) |}.

(** A crawler as [__init__] leaves it. *)
Definition fresh (start : string) (dom : string) (max d : Z) : SimpleCrawler :=
  {| start_url := start; max_pages := max; delay := d;
     visited := ∅; to_visit := [start]; domain := dom |}.

End Sample.

(** * The vocabulary of the properties *)

(** ** Shapes of strings *)

Fixpoint all_chars (p : ascii -> bool) (s : string) : bool :=
  match s with
  | EmptyString => true
  | String c s' => p c && all_chars p s'
  end.

Definition first_is (p : ascii -> bool) (s : string) : bool :=
  match s with
  | EmptyString => false
  | String c _ => p c
  end.

Fixpoint last_is (p : ascii -> bool) (s : string) : bool :=
  match s with
  | EmptyString => false
  | String c EmptyString => p c
  | String _ s' => last_is p s'
  end.

(** Two neighbouring characters of [s] both satisfy [p]. *)
Fixpoint has_adjacent (p : ascii -> bool) (s : string) : bool :=
  match s with
  | EmptyString => false
  | String c s' => p c && first_is p s' || has_adjacent p s'
  end.

Definition is_SP (c : ascii) : bool := Ascii.eqb c PyStr.SP.

Definition not_linebreak (c : ascii) : bool := negb (PyStr.is_linebreak c).

(** A piece cut by [split]: its characters satisfy [q] and no two spaces
    stand side by side in it. *)
Definition piece_ok (q : ascii -> bool) (piece : string) : Prop :=
  all_chars q piece = true /\ has_adjacent is_SP piece = false.

(** What [extract_text] makes of the text of a page: no line boundary, no
    two spaces in a row, no white space at either end. *)
Record tidy (s : string) : Prop := {
  tidy_lines : all_chars not_linebreak s = true;
  tidy_spaces : has_adjacent is_SP s = false;
  tidy_first : first_is PyStr.isspace s = false;
  tidy_last : last_is PyStr.isspace s = false
}.

(** The strings [get_text] returns once the [script] and [style] elements
    are gone: those of the text nodes that stand outside every such
    element, in document order. *)
Fixpoint shown_strings (e : element) : list string :=
  match e with
  | NavigableString c s => if Bs4.is_text_class c then [s] else []
  | Tag n _ cs =>
      if Bs4.name_in ["script"; "style"] n then []
      else flat_map shown_strings cs
  end.

Definition shown_text (d : soup) : string :=
  String.concat "" (flat_map shown_strings d).

(** A run of white space between two words is cut when it holds a line
    boundary or two spaces side by side. *)
Definition cut_gap (gap : string) : bool :=
  negb (all_chars not_linebreak gap) || has_adjacent is_SP gap.

(** What stands between the two words in the result: one space when the
    run is cut, the run itself otherwise. *)
Definition sep_of (gap : string) : string :=
  if cut_gap gap then " " else gap.

(** The text read in one pass, word by word (a word is a run of characters
    that are not white space).  [started] tells whether a word has been
    read, [gap] is the white space read since.  The words are kept, in
    order; before each word but the first comes what [sep_of] makes of the
    white space that led to it; the white space before the first word and
    after the last one is dropped. *)
Fixpoint respace_from (started : bool) (gap s : string) : string :=
  match s with
  | EmptyString => ""
  | String c s' =>
      if PyStr.isspace c then respace_from started (gap ++ String c "") s'
      else (if started then sep_of gap else "")
           ++ String c (respace_from true "" s')
  end.

Definition respace (s : string) : string := respace_from false "" s.

(** [a] and [b] with one space in between, unless one of them is empty. *)
Definition glue (a b : string) : string :=
  match a, b with
  | EmptyString, _ => b
  | _, EmptyString => a
  | _, _ => a ++ " " ++ b
  end.

(** [r] after one space, unless it is empty. *)
Definition spaced (r : string) : string :=
  match r with
  | EmptyString => ""
  | _ => " " ++ r
  end.

(** The non-empty pieces of [l], joined. *)
Definition glued (l : list string) : string :=
  PyStr.join " " (List.filter PyStr.truthy l).

(** [replace_inside names f e]: the tree [e] where every tag named in
    [names] has had its attributes and contents replaced through [f]. *)
Fixpoint replace_inside (names : list string)
  (f : list (string * string) -> list element -> list (string * string) * list element)
  (e : element) : element :=
  match e with
  | NavigableString _ _ => e
  | Tag n a cs =>
      if Bs4.name_in names n
      then Tag n (fst (f a cs)) (snd (f a cs))
      else Tag n a (map (replace_inside names f) cs)
  end.

(** ** Projections of the trace *)

(** The URLs requested, in order. *)
Fixpoint gets (t : list event) : list string :=
  match t with
  | [] => []
  | EvGet u :: t' => u :: gets t'
  | _ :: t' => gets t'
  end.

(** The URLs appended to the frontier, in order. *)
Fixpoint appends (t : list event) : list string :=
  match t with
  | [] => []
  | EvAppend u :: t' => u :: appends t'
  | _ :: t' => appends t'
  end.




(** [has_anchor e h]: the tree [e] holds an [a] tag whose [href] is [h]. *)
Inductive has_anchor : element -> string -> Prop :=
  | anchor_here a cs h :
      Bs4.get_attr "href" a = Some h -> has_anchor (Tag "a" a cs) h
  | anchor_below n a cs e h :
      In e cs -> has_anchor e h -> has_anchor (Tag n a cs) h.

(** The same for a whole document. *)
Definition soup_has_anchor (d : soup) (h : string) : Prop :=
  exists e, In e d /\ has_anchor e h.

(** The values of the [href] attributes of the [a] tags of [e], in document
    order. *)
Fixpoint hrefs_in (e : element) : list string :=
  match e with
  | NavigableString _ _ => []
  | Tag n a cs =>
      (if String.eqb n "a"
       then match Bs4.get_attr "href" a with Some h => [h] | None => [] end
       else [])
      ++ flat_map hrefs_in cs
  end.

(** The same for a whole document. *)
Definition hrefs_of (d : soup) : list string := flat_map hrefs_in d.

(** How many tags, each the only child of the one before, hang below [e]. *)
Fixpoint only_child_depth (e : element) : nat :=
  match e with
  | Tag _ _ [Tag _ _ _ as child] => S (only_child_depth child)
  | _ => O
  end.

(** The exception of a nested call that the recursion limit refuses. *)
Definition RecursionError : exn :=
  Exception "RecursionError: maximum recursion depth exceeded".

(** What the frontier loop appends: the links that are neither visited nor
    already waiting, each once. *)
Fixpoint fresh_links (v : gset string) (q links : list string) : list string :=
  match links with
  | [] => []
  | l :: links' =>
      if bool_decide (l ∉ v) && bool_decide (l ∉ q)
      then l :: fresh_links v (q ++ [l]) links'
      else fresh_links v q links'
  end.

(** ** The states of a turn and of a run *)

Section Vocabulary.
Context {U : UrlLib} {P : HtmlParser} {W : Type} {H : Http W}.

(** The state after [for link in links: ...]. *)
Definition enqueue_all (links : list string) (st : state W) : state W :=
  snd (for_each links enqueue st).

(** The state when the request is about to return. *)
Definition after_get (url : string) (w' : W) (st : state W) : state W :=
  set_world w'
    (log (EvGet url)
       (if bool_decide (visited (self st) ≠ ∅)
        then log (EvSleep (delay (self st))) st else st)).

(** The state after [self.visited.add(url)]. *)
Definition mark_visited (url : string) (st : state W) : state W :=
  on_self (fun c => set_visited (visited c ∪ {[url]}) c) st.

(** The dictionary appended to [pages_data]. *)
Definition record_of (url : string) (title : option string) (txt : string)
  (links : list string) : PageRecord :=
  {| page_url := url; page_title_field := title;
     text_length := String.length txt; links_found := length links |}.

(** The three extractions of a fetched page, in the order [crawl] runs them. *)
Definition extraction (dom url html : string)
  : result (string * list string * option string) :=
  let? txt := extract_text html in
  let? links := get_links dom url html in
  let? title := page_title html in
  Ok (txt, links, title).

(** Where the statements under [try] leave the state, case by case. *)
Definition try_outcome (url : string) (st : state W) : state W :=
  if bool_decide (visited (self st) ≠ ∅) && sleep_refused (delay (self st))
  then st
  else
    let st1 := after_get url (fst (requests_get (world st) url)) st in
    match snd (requests_get (world st) url) with
    | Raise _ => st1
    | Ok response =>
        match raise_for_status response with
        | Raise _ => st1
        | Ok _ =>
            let st2 := mark_visited url st1 in
            match extraction (domain (self st)) url (text response) with
            | Ok (txt, links, title) =>
                enqueue_all links (add_page (record_of url title txt links) st2)
            | Raise _ => st2
            end
        end
    end.

(** The request for [url] in network state [w] does not give a page:
    [requests.get] raises, or [raise_for_status] does. *)
Definition fetch_fails (w : W) (url : string) : Prop :=
  match snd (requests_get w url) with
  | Raise _ => True
  | Ok response => raise_for_status response <> Ok tt
  end.

(** The request gives the page [response]. *)
Definition fetch_gives (w : W) (url : string) (response : Response) : Prop :=
  snd (requests_get w url) = Ok response /\ raise_for_status response = Ok tt.

(** The pacing call of this turn raises. *)
Definition sleep_raises (st : state W) : Prop :=
  visited (self st) ≠ ∅ /\ sleep_refused (delay (self st)) = true.

(** The state once [url] has been taken off the frontier. *)
Definition popped (rest : list string) (st : state W) : state W :=
  on_self (set_to_visit rest) st.

(** The state once the request for [url] has been made. *)
Definition requested (url : string) (rest : list string) (st : state W) : state W :=
  after_get url (fst (requests_get (world st) url)) (popped rest st).

Inductive turn (st : state W) (url : string) (rest : list string)
  : state W -> Prop :=
  | turn_seen :
      url ∈ visited (self st) ->
      turn st url rest (popped rest st)
  | turn_sleep_raised :
      url ∉ visited (self st) -> sleep_raises st ->
      turn st url rest (popped rest st)
  | turn_fetch_failed :
      url ∉ visited (self st) -> ~ sleep_raises st ->
      fetch_fails (world st) url ->
      turn st url rest (requested url rest st)
  | turn_extraction_raised response e :
      url ∉ visited (self st) -> ~ sleep_raises st ->
      fetch_gives (world st) url response ->
      extraction (domain (self st)) url (text response) = Raise e ->
      turn st url rest (mark_visited url (requested url rest st))
  | turn_page txt links title response :
      url ∉ visited (self st) -> ~ sleep_raises st ->
      fetch_gives (world st) url response ->
      extraction (domain (self st)) url (text response) = Ok (txt, links, title) ->
      turn st url rest
        (enqueue_all links
           (add_page (record_of url title txt links)
              (mark_visited url (requested url rest st)))).

(** The states a run goes through, turn after turn, from [st0]. *)
Inductive reachable (st0 : state W) : state W -> Prop :=
  | reach_start : reachable st0 st0
  | reach_turn st :
      reachable st0 st -> loop_cond st = true -> reachable st0 (iteration st).

(** [len(self.visited)] *)
Definition count_visited (st : state W) : Z :=
  Z.of_nat (size (visited (self st))).

(** The configuration never changes. *)
Definition same_config (st st' : state W) : Prop :=
  start_url (self st') = start_url (self st)
  /\ max_pages (self st') = max_pages (self st)
  /\ delay (self st') = delay (self st)
  /\ domain (self st') = domain (self st).



(** [u] is what a reference [h] resolves to, and it is in scope. *)
Definition resolves_in_scope (dom url h u : string) : Prop :=
  urljoin url h = Ok u /\ is_valid_url dom u = Ok true.

(** [links] holds, in order, what the references [hrefs] resolve to: one
    entry for each reference whose resolution is in scope, none for the
    others. *)
Inductive kept_links (dom url : string) : list string -> list string -> Prop :=
  | kept_none : kept_links dom url [] []
  | kept_in_scope h hrefs u links :
      resolves_in_scope dom url h u ->
      kept_links dom url hrefs links ->
      kept_links dom url (h :: hrefs) (u :: links)
  | kept_out_of_scope h hrefs u links :
      urljoin url h = Ok u -> is_valid_url dom u = Ok false ->
      kept_links dom url hrefs links ->
      kept_links dom url (h :: hrefs) links.

(** The reference [h] resolves to [u], and [u] is in scope. *)
Definition refers_to (dom url u h : string) : bool :=
  match urljoin url h with
  | Ok u' =>
      match is_valid_url dom u' with
      | Ok true => String.eqb u' u
      | _ => false
      end
  | Raise _ => false
  end.

(** What the run of crawler [c] on network [w] has done after [n] turns. *)
Definition after_turns (c : SimpleCrawler) (w : W) (n : nat) : state W :=
  Nat.iter n iteration (enter c w).




End Vocabulary.

(** The state after the first turn of a fresh sample crawler. *)
Definition sample_first_turn (start : string) : state nat :=
  iteration (U := Sample.urls) (P := Sample.parser) (H := Sample.site)
    (enter (Sample.fresh start "example.com" 5 1) O).

(** The frontier holds no URL twice and no visited URL. *)
Definition clean_frontier (c : SimpleCrawler) : Prop :=
  NoDup (to_visit c) /\ forall u, u ∈ to_visit c -> u ∉ visited c.

(** The URLs of the page records, in order. *)
Definition record_urls (pages : list PageRecord) : list string :=
  map page_url pages.

(** The text made of the lines [ls], each closed by a line feed. *)
Fixpoint unlines (ls : list string) : string :=
  match ls with
  | [] => ""
  | l :: ls' => l ++ Sitemap.NL ++ unlines ls'
  end.

(** The three lines of the sitemap's banner. *)
Definition header_lines : list string :=
  ["SITEMAP"; Sitemap.repeat_str "=" 50; ""].

(** The three lines of the sitemap for one record. *)
Definition entry_lines (bullet : string) (page : PageRecord) : list string :=
  [bullet ++ " " ++ Sitemap.format_title (page_title_field page);
   "  " ++ page_url page; ""].

(** * Properties *)

(** ** The string operations on small inputs *)

Example splitlines_ex :
  PyStr.splitlines (String "a" (String PyStr.CR (String PyStr.LF (String PyStr.LF "b"))))
  = ["a"; ""; "b"].
Proof. reflexivity. Qed.

Example split_ex : PyStr.split "  " "a   b  " = ["a"; " b"; ""].
Proof. reflexivity. Qed.

Example strip_ex : PyStr.strip "  a b  " = "a b".
Proof. reflexivity. Qed.

(** ** Shapes of strings *)

Lemma append_nil (b : string) : "" ++ b = b.
Proof. reflexivity. Qed.

Lemma append_cons (c : ascii) (a b : string) :
  String c a ++ b = String c (a ++ b).
Proof. reflexivity. Qed.

Ltac str_simpl := rewrite ?append_cons, ?append_nil; simpl.

Section StringFacts.
Variable p : ascii -> bool.

Lemma app_empty_r (s : string) : s ++ "" = s.
Proof. induction s as [|c s IH]; str_simpl; [reflexivity | now rewrite IH]. Qed.

Lemma app_assoc_str (a b c : string) : (a ++ b) ++ c = a ++ (b ++ c).
Proof. induction a as [|x a IH]; str_simpl; [reflexivity | now rewrite IH]. Qed.

Lemma all_chars_app (a b : string) :
  all_chars p (a ++ b) = all_chars p a && all_chars p b.
Proof.
  induction a as [|c a IH]; str_simpl; [reflexivity|].
  rewrite IH. now rewrite andb_assoc.
Qed.

Lemma first_is_app (a b : string) :
  first_is p (a ++ b) = match a with EmptyString => first_is p b | _ => first_is p a end.
Proof. destruct a; reflexivity. Qed.

Lemma last_is_app (a b : string) :
  last_is p (a ++ b) = match b with EmptyString => last_is p a | _ => last_is p b end.
Proof.
  induction a as [|c a IH]; str_simpl.
  - destruct b; reflexivity.
  - destruct a as [|c' a].
    + str_simpl. destruct b; reflexivity.
    + rewrite append_cons in *. rewrite IH. destruct b; reflexivity.
Qed.

Lemma has_adjacent_app (a b : string) :
  has_adjacent p (a ++ b)
  = has_adjacent p a || has_adjacent p b || last_is p a && first_is p b.
Proof.
  induction a as [|c a IH]; str_simpl.
  - now rewrite orb_false_r.
  - rewrite IH, first_is_app. destruct a as [|c' a]; simpl.
    + destruct (p c), (first_is p b), (has_adjacent p b); reflexivity.
    + destruct (p c), (p c'), (has_adjacent p (String c' a)),
        (has_adjacent p b), (last_is p (String c' a)), (first_is p b);
        reflexivity.
Qed.

End StringFacts.

(** ** [strip] *)

Section StripFacts.
Variable p : ascii -> bool.

Lemma lstrip_suffix (s : string) : exists pre, s = pre ++ PyStr.lstrip s.
Proof.
  induction s as [|c s [pre IH]]; simpl.
  - now exists "".
  - destruct (PyStr.isspace c).
    + exists (String c pre). rewrite append_cons. now rewrite <- IH.
    + now exists "".
Qed.

Lemma rstrip_prefix (s : string) : exists suf, s = PyStr.rstrip s ++ suf.
Proof.
  induction s as [|c s [suf IH]]; simpl.
  - now exists "".
  - destruct (PyStr.rstrip s) as [|c' r] eqn:E.
    + destruct (PyStr.isspace c).
      * now exists (String c s).
      * exists s. reflexivity.
    + exists suf. rewrite append_cons. now rewrite <- IH.
Qed.

Lemma lstrip_first (s : string) :
  first_is PyStr.isspace (PyStr.lstrip s) = false.
Proof.
  induction s as [|c s IH]; simpl; [reflexivity|].
  destruct (PyStr.isspace c) eqn:E; [exact IH | simpl; exact E].
Qed.

Lemma rstrip_last (s : string) :
  last_is PyStr.isspace (PyStr.rstrip s) = false.
Proof.
  induction s as [|c s IH]; simpl; [reflexivity|].
  destruct (PyStr.rstrip s) as [|c' r] eqn:E.
  - destruct (PyStr.isspace c) eqn:Ec; simpl; [reflexivity | exact Ec].
  - exact IH.
Qed.

Lemma rstrip_first (s : string) :
  first_is p (PyStr.rstrip s) = true -> first_is p s = true.
Proof.
  destruct s as [|c s]; simpl; [trivial|].
  destruct (PyStr.rstrip s); [destruct (PyStr.isspace c)|]; simpl; congruence.
Qed.

Lemma strip_infix (s : string) :
  exists pre suf, s = pre ++ PyStr.strip s ++ suf.
Proof.
  unfold PyStr.strip.
  destruct (lstrip_suffix s) as [pre Hp].
  destruct (rstrip_prefix (PyStr.lstrip s)) as [suf Hs].
  exists pre, suf. now rewrite <- Hs.
Qed.

End StripFacts.

Lemma strip_first (s : string) : first_is PyStr.isspace (PyStr.strip s) = false.
Proof.
  unfold PyStr.strip.
  destruct (first_is PyStr.isspace (PyStr.rstrip (PyStr.lstrip s))) eqn:E;
    [|reflexivity].
  apply rstrip_first in E. now rewrite lstrip_first in E.
Qed.

Lemma strip_last (s : string) : last_is PyStr.isspace (PyStr.strip s) = false.
Proof. apply rstrip_last. Qed.

Lemma lstrip_fixed (s : string) :
  first_is PyStr.isspace s = false -> PyStr.lstrip s = s.
Proof. destruct s as [|c s]; simpl; [trivial|]. now intros ->. Qed.

Lemma rstrip_fixed (s : string) :
  last_is PyStr.isspace s = false -> PyStr.rstrip s = s.
Proof.
  induction s as [|c s IH]; simpl; [trivial|].
  destruct s as [|c' s].
  - simpl. now intros ->.
  - intros Hl. rewrite (IH Hl). reflexivity.
Qed.

(** A property of all characters, or the absence of a neighbouring pair,
    passes from a string to any part of it. *)
Lemma all_chars_infix (p : ascii -> bool) (pre m suf : string) :
  all_chars p (pre ++ m ++ suf) = true -> all_chars p m = true.
Proof.
  rewrite !all_chars_app. intros Hall.
  apply andb_true_iff in Hall as [_ Hall].
  now apply andb_true_iff in Hall as [Hall _].
Qed.

Lemma has_adjacent_infix (p : ascii -> bool) (pre m suf : string) :
  has_adjacent p (pre ++ m ++ suf) = false -> has_adjacent p m = false.
Proof.
  rewrite !has_adjacent_app. intros Hadj.
  apply orb_false_iff in Hadj as [Hadj _].
  apply orb_false_iff in Hadj as [_ Hadj].
  apply orb_false_iff in Hadj as [Hadj _].
  now apply orb_false_iff in Hadj as [Hadj _].
Qed.

Lemma strip_all_chars (p : ascii -> bool) (s : string) :
  all_chars p s = true -> all_chars p (PyStr.strip s) = true.
Proof.
  destruct (strip_infix s) as (pre & suf & E). intros Hs.
  rewrite E in Hs. exact (all_chars_infix _ _ _ _ Hs).
Qed.

Lemma strip_has_adjacent (p : ascii -> bool) (s : string) :
  has_adjacent p s = false -> has_adjacent p (PyStr.strip s) = false.
Proof.
  destruct (strip_infix s) as (pre & suf & E). intros Hs.
  rewrite E in Hs. exact (has_adjacent_infix _ _ _ _ Hs).
Qed.

Lemma is_SP_isspace (c : ascii) : is_SP c = true -> PyStr.isspace c = true.
Proof. unfold is_SP. intros E%Ascii.eqb_eq. now subst c. Qed.

Lemma first_is_mono (p q : ascii -> bool) (s : string) :
  (forall c, p c = true -> q c = true) ->
  first_is q s = false -> first_is p s = false.
Proof.
  intros Hpq. destruct s as [|c s]; simpl; [trivial|].
  intros Hq. destruct (p c) eqn:E; [|reflexivity].
  apply Hpq in E. congruence.
Qed.

Lemma last_is_mono (p q : ascii -> bool) (s : string) :
  (forall c, p c = true -> q c = true) ->
  last_is q s = false -> last_is p s = false.
Proof.
  intros Hpq. induction s as [|c s IH]; simpl; [trivial|].
  destruct s as [|c' s]; [|exact IH].
  intros Hq. destruct (p c) eqn:E; [|reflexivity].
  apply Hpq in E. congruence.
Qed.

(** ** [splitlines] *)

Lemma splitlines_from_no_linebreak (n : nat) :
  forall s cur,
    (String.length s <= n)%nat ->
    all_chars not_linebreak cur = true ->
    Forall (fun l => all_chars not_linebreak l = true)
      (PyStr.splitlines_from cur s).
Proof.
  induction n as [|n IH]; intros s cur Hn Hcur.
  - destruct s; [|simpl in Hn; lia]. simpl.
    destruct cur; [constructor | repeat constructor; exact Hcur].
  - destruct s as [|c s']; simpl.
    + destruct cur; [constructor | repeat constructor; exact Hcur].
    + simpl in Hn. destruct (PyStr.is_linebreak c) eqn:Ec.
      * constructor; [exact Hcur|].
        destruct s' as [|c' s'']; [constructor|].
        simpl in Hn.
        destruct (Ascii.eqb c PyStr.CR && Ascii.eqb c' PyStr.LF);
          apply IH; simpl; try lia; reflexivity.
      * apply IH; [lia|].
        rewrite all_chars_app, Hcur. simpl.
        unfold not_linebreak. now rewrite Ec.
Qed.

Lemma splitlines_no_linebreak (s : string) :
  Forall (fun l => all_chars not_linebreak l = true) (PyStr.splitlines s).
Proof.
  apply (splitlines_from_no_linebreak (String.length s)); [lia | reflexivity].
Qed.

(** ** [split] on two spaces *)

Lemma prefix_cons (a b : ascii) (s1 s2 : string) :
  String.prefix (String a s1) (String b s2)
  = if ascii_dec a b then String.prefix s1 s2 else false.
Proof. reflexivity. Qed.

Lemma prefix_two_spaces (c : ascii) (s : string) :
  String.prefix "  " (String c s) = is_SP c && first_is is_SP s.
Proof.
  unfold is_SP, PyStr.SP. rewrite prefix_cons.
  destruct (ascii_dec " " c) as [<-|Hc].
  - rewrite Ascii.eqb_refl. destruct s as [|c' s]; [reflexivity|].
    rewrite prefix_cons. cbn [first_is andb].
    destruct (ascii_dec " " c') as [<-|Hc'].
    + rewrite Ascii.eqb_refl. now destruct s.
    + symmetry. apply Ascii.eqb_neq. congruence.
  - symmetry. apply andb_false_intro1. apply Ascii.eqb_neq. congruence.
Qed.

Lemma split_from_pieces (q : ascii -> bool) (s : string) :
  forall skip cur,
    all_chars q cur = true -> all_chars q s = true ->
    has_adjacent is_SP cur = false ->
    (skip = O -> last_is is_SP cur && first_is is_SP s = false) ->
    (skip <> O -> cur = "") ->
    Forall (piece_ok q) (PyStr.split_from "  " skip cur s).
Proof.
  induction s as [|c s IH]; intros skip cur Hcur Hs Hadj H0 Hskip.
  - simpl. repeat constructor; assumption.
  - simpl in Hs. apply andb_true_iff in Hs as [Hc Hs].
    cbn [PyStr.split_from]. destruct skip as [|k].
    + rewrite prefix_two_spaces. specialize (H0 eq_refl). simpl in H0.
      destruct (is_SP c && first_is is_SP s) eqn:Esep.
      * constructor; [split; assumption|].
        apply IH; try reflexivity; assumption.
      * apply IH; try assumption.
        -- rewrite all_chars_app, Hcur. simpl. now rewrite Hc.
        -- rewrite has_adjacent_app, Hadj. simpl.
           rewrite andb_false_r. simpl. exact H0.
        -- intros _. rewrite last_is_app. simpl. exact Esep.
        -- congruence.
    + rewrite (Hskip ltac:(congruence)).
      apply IH; try reflexivity; assumption.
Qed.

Lemma split_pieces (q : ascii -> bool) (s : string) :
  all_chars q s = true -> Forall (piece_ok q) (PyStr.split "  " s).
Proof.
  intros Hs. apply split_from_pieces; try reflexivity; assumption.
Qed.

(** ** [join] and the cleaning pipeline *)

Lemma tidy_empty : tidy "".
Proof. split; reflexivity. Qed.

Lemma join_tidy (chunks : list string) :
  Forall (fun c => tidy c /\ c <> "") chunks -> tidy (PyStr.join " " chunks).
Proof.
  induction chunks as [|x l IH]; intros Hall; [exact tidy_empty|].
  inversion Hall as [|? ? [Hx Hne] Hl]; subst.
  destruct l as [|y l]; [exact Hx|].
  specialize (IH Hl). destruct Hx as [X1 X2 X3 X4], IH as [J1 J2 J3 J4].
  change (PyStr.join " " (x :: y :: l))
    with (x ++ " " ++ PyStr.join " " (y :: l)).
  set (rest := PyStr.join " " (y :: l)) in *.
  assert (Hrest : rest <> "").
  { inversion Hl as [|? ? [_ Hy] _]; subst. unfold rest.
    destruct y as [|c y]; [congruence|]. destruct l; discriminate. }
  split.
  - rewrite !all_chars_app, X1, J1. reflexivity.
  - rewrite has_adjacent_app, X2.
    rewrite (last_is_mono is_SP PyStr.isspace x is_SP_isspace X4).
    rewrite append_cons, append_nil. simpl.
    rewrite (first_is_mono is_SP PyStr.isspace rest is_SP_isspace J3).
    now rewrite J2.
  - rewrite first_is_app. destruct x; [congruence | exact X3].
  - rewrite last_is_app, append_cons, append_nil.
    destruct rest as [|c r]; [congruence|]. exact J4.
Qed.

Lemma chunk_tidy (piece : string) :
  piece_ok not_linebreak piece -> tidy (PyStr.strip piece).
Proof.
  intros [Hall Hadj]. split.
  - now apply strip_all_chars.
  - now apply strip_has_adjacent.
  - apply strip_first.
  - apply strip_last.
Qed.

Lemma truthy_nonempty (s : string) : PyStr.truthy s = true -> s <> "".
Proof. destruct s; [discriminate | congruence]. Qed.

Lemma clean_text_tidy (text : string) : tidy (clean_text text).
Proof.
  unfold clean_text. apply join_tidy.
  apply List.Forall_forall. intros chunk Hin.
  apply List.filter_In in Hin as [Hin Hne]. split; [|now apply truthy_nonempty].
  apply in_flat_map in Hin as (line & Hline & Hchunk).
  apply in_map_iff in Hchunk as (piece & <- & Hpiece).
  apply in_map_iff in Hline as (raw & <- & Hraw).
  apply chunk_tidy.
  pose proof (splitlines_no_linebreak text) as Hlines.
  rewrite List.Forall_forall in Hlines. specialize (Hlines raw Hraw).
  pose proof (split_pieces not_linebreak (PyStr.strip raw)
                (strip_all_chars _ _ Hlines)) as Hp.
  rewrite List.Forall_forall in Hp. exact (Hp piece Hpiece).
Qed.

(** ** The cleaning pipeline, word by word *)

Lemma linebreak_isspace (c : ascii) :
  PyStr.is_linebreak c = true -> PyStr.isspace c = true.
Proof. destruct c as [[] [] [] [] [] [] [] []]; vm_compute; auto. Qed.

Lemma glue_empty_r (a : string) : glue a "" = a.
Proof. now destruct a. Qed.

Lemma glue_spaced (a b : string) : a <> "" -> glue a b = a ++ spaced b.
Proof.
  intros Ha. destruct a as [|c a]; [congruence|].
  destruct b; simpl; [now rewrite app_empty_r | reflexivity].
Qed.

Lemma glue_assoc (a b c : string) : glue a (glue b c) = glue (glue a b) c.
Proof.
  destruct a as [|x a]; [reflexivity|].
  destruct b as [|y b]; [reflexivity|].
  destruct c as [|z c]; [reflexivity|].
  cbn [glue]. rewrite !append_cons. cbn [glue].
  rewrite <- !append_cons, !app_assoc_str. reflexivity.
Qed.

Lemma cut_gap_app_l (g x : string) :
  cut_gap g = true -> cut_gap (g ++ x) = true.
Proof.
  unfold cut_gap. rewrite all_chars_app, has_adjacent_app.
  destruct (all_chars not_linebreak g), (all_chars not_linebreak x),
    (has_adjacent is_SP g), (has_adjacent is_SP x), (last_is is_SP g),
    (first_is is_SP x); simpl; congruence.
Qed.

Lemma cut_gap_app_r (g x : string) :
  cut_gap x = true -> cut_gap (g ++ x) = true.
Proof.
  unfold cut_gap. rewrite all_chars_app, has_adjacent_app.
  destruct (all_chars not_linebreak g), (all_chars not_linebreak x),
    (has_adjacent is_SP g), (has_adjacent is_SP x), (last_is is_SP g),
    (first_is is_SP x); simpl; congruence.
Qed.

Lemma respace_from_before_word (g : string) :
  forall s g', respace_from false g s = respace_from false g' s.
Proof.
  intros s. revert g. induction s as [|c s IH]; intros g g'; [reflexivity|].
  simpl. destruct (PyStr.isspace c); [apply IH | reflexivity].
Qed.

Lemma respace_skip (c : ascii) (s : string) :
  PyStr.isspace c = true -> respace (String c s) = respace s.
Proof.
  intros Hc. unfold respace. simpl. rewrite Hc.
  apply respace_from_before_word.
Qed.

Lemma respace_from_spaces (w : string) :
  forall st g b,
    all_chars PyStr.isspace w = true ->
    respace_from st g (w ++ b) = respace_from st (g ++ w) b.
Proof.
  induction w as [|c w IH]; intros st g b Hw.
  - now rewrite append_nil, app_empty_r.
  - simpl in Hw. apply andb_true_iff in Hw as [Hc Hw].
    rewrite append_cons. simpl. rewrite Hc, IH by exact Hw.
    now rewrite app_assoc_str.
Qed.

Lemma respace_from_empty (s : string) :
  forall st g,
    respace_from st g s = "" <-> all_chars PyStr.isspace s = true.
Proof.
  induction s as [|c s IH]; intros st g; simpl; [tauto|].
  destruct (PyStr.isspace c); simpl; [apply IH|].
  split; [|discriminate].
  destruct (if st then sep_of g else ""); discriminate.
Qed.

Lemma respace_from_cut (s : string) :
  forall g, cut_gap g = true -> respace_from true g s = spaced (respace s).
Proof.
  induction s as [|c s IH]; intros g Hg; [reflexivity|].
  unfold respace. simpl. destruct (PyStr.isspace c).
  - rewrite IH by now apply cut_gap_app_l.
    now rewrite (respace_from_before_word _ s "").
  - unfold sep_of. rewrite Hg. reflexivity.
Qed.

Lemma respace_from_cut_app (w b : string) :
  all_chars PyStr.isspace w = true -> cut_gap w = true ->
  forall a st g,
    respace_from st g (a ++ w ++ b)
    = if st || negb (all_chars PyStr.isspace a)
      then respace_from st g a ++ spaced (respace b)
      else respace b.
Proof.
  intros Hw Hcut. induction a as [|c a IH]; intros st g.
  - rewrite append_nil, respace_from_spaces by exact Hw. simpl.
    rewrite orb_false_r. destruct st.
    + apply respace_from_cut. now apply cut_gap_app_r.
    + apply respace_from_before_word.
  - rewrite append_cons. simpl. destruct (PyStr.isspace c); simpl.
    + apply IH.
    + rewrite orb_true_r, IH. simpl. now rewrite app_assoc_str, append_cons.
Qed.

(** The text on both sides of a cut is cleaned apart. *)
Lemma respace_cut (a w b : string) :
  all_chars PyStr.isspace w = true -> cut_gap w = true ->
  respace (a ++ w ++ b) = glue (respace a) (respace b).
Proof.
  intros Hw Hcut.
  change (respace (a ++ w ++ b)) with (respace_from false "" (a ++ w ++ b)).
  rewrite (respace_from_cut_app w b Hw Hcut). simpl.
  destruct (all_chars PyStr.isspace a) eqn:Ea; simpl.
  - apply (respace_from_empty a false "") in Ea.
    change (respace a) with (respace_from false "" a). now rewrite Ea.
  - symmetry. apply glue_spaced. intros Hr. unfold respace in Hr.
    apply respace_from_empty in Hr. congruence.
Qed.

Lemma rstrip_cons (c : ascii) (s : string) :
  PyStr.rstrip (String c s)
  = match PyStr.rstrip s with
    | EmptyString => if PyStr.isspace c then "" else String c ""
    | r => String c r
    end.
Proof. reflexivity. Qed.

(** Where nothing is cut, the text is only trimmed. *)
Lemma respace_from_plain (s : string) :
  forall g,
    all_chars not_linebreak (g ++ s) = true ->
    has_adjacent is_SP (g ++ s) = false ->
    respace_from true g s
    = match PyStr.rstrip s with EmptyString => "" | r => g ++ r end.
Proof.
  induction s as [|c s IH]; intros g Hnl Hadj; [reflexivity|].
  rewrite rstrip_cons. cbn [respace_from]. destruct (PyStr.isspace c) eqn:Ec.
  - rewrite IH.
    + destruct (PyStr.rstrip s); [reflexivity|].
      now rewrite app_assoc_str, append_cons, append_nil.
    + now rewrite app_assoc_str, append_cons, append_nil.
    + now rewrite app_assoc_str, append_cons, append_nil.
  - rewrite all_chars_app in Hnl. apply andb_true_iff in Hnl as [Hg Hs].
    rewrite has_adjacent_app in Hadj.
    apply orb_false_iff in Hadj as [Hadj _].
    apply orb_false_iff in Hadj as [Hgadj Hsadj].
    unfold sep_of, cut_gap. rewrite Hg, Hgadj. simpl.
    simpl in Hs. apply andb_true_iff in Hs as [_ Hs].
    simpl in Hsadj. apply orb_false_iff in Hsadj as [_ Hsadj].
    rewrite (IH "") by (rewrite append_nil; assumption).
    destruct (PyStr.rstrip s); reflexivity.
Qed.

Lemma respace_plain (s : string) :
  all_chars not_linebreak s = true -> has_adjacent is_SP s = false ->
  respace s = PyStr.strip s.
Proof.
  unfold respace, PyStr.strip. generalize "" at 1.
  induction s as [|c s IH]; intros g Hnl Hadj; [reflexivity|].
  simpl in Hnl. apply andb_true_iff in Hnl as [_ Hnl].
  simpl in Hadj. apply orb_false_iff in Hadj as [_ Hadj].
  cbn [respace_from PyStr.lstrip]. destruct (PyStr.isspace c) eqn:Ec.
  - now apply IH.
  - rewrite rstrip_cons, Ec, append_nil.
    rewrite (respace_from_plain s "") by (rewrite append_nil; assumption).
    destruct (PyStr.rstrip s); reflexivity.
Qed.

Lemma respace_lstrip (s : string) : respace (PyStr.lstrip s) = respace s.
Proof.
  induction s as [|c s IH]; [reflexivity|].
  simpl. destruct (PyStr.isspace c) eqn:Ec; [|reflexivity].
  now rewrite respace_skip.
Qed.

Lemma respace_from_rstrip (s : string) :
  forall st g, respace_from st g (PyStr.rstrip s) = respace_from st g s.
Proof.
  induction s as [|c s IH]; intros st g; [reflexivity|].
  rewrite rstrip_cons. cbn [respace_from].
  destruct (PyStr.rstrip s) as [|c' r] eqn:Er.
  - destruct (PyStr.isspace c) eqn:Ec.
    + now rewrite <- IH.
    + cbn [respace_from]. rewrite Ec. now rewrite <- (IH true "").
  - cbn [respace_from]. destruct (PyStr.isspace c); now rewrite <- IH.
Qed.

Lemma respace_strip (s : string) : respace (PyStr.strip s) = respace s.
Proof.
  unfold PyStr.strip, respace. rewrite respace_from_rstrip.
  apply respace_lstrip.
Qed.

Lemma join_empty (l : list string) :
  Forall (fun x => x <> "") l -> PyStr.join " " l = "" -> l = [].
Proof.
  intros Hl Hj. destruct l as [|x l]; [reflexivity|].
  inversion Hl as [|? ? Hx _]; subst. destruct x as [|c x]; [congruence|].
  destruct l; discriminate.
Qed.

Lemma filter_truthy_nonempty (l : list string) :
  Forall (fun x => x <> "") (List.filter PyStr.truthy l).
Proof.
  apply List.Forall_forall. intros x Hx.
  apply List.filter_In in Hx as [_ Hx]. now apply truthy_nonempty.
Qed.

Lemma glued_cons (x : string) (l : list string) :
  glued (x :: l) = glue x (glued l).
Proof.
  unfold glued. destruct x as [|c x]; [reflexivity|].
  cbn [List.filter PyStr.truthy].
  pose proof (filter_truthy_nonempty l) as Hne.
  pose proof (join_empty _ Hne) as Hj.
  destruct (List.filter PyStr.truthy l) as [|y f]; [reflexivity|].
  change (PyStr.join " " (String c x :: y :: f))
    with (String c x ++ " " ++ PyStr.join " " (y :: f)).
  destruct (PyStr.join " " (y :: f)); [|reflexivity].
  discriminate (Hj eq_refl).
Qed.

Lemma glued_app (a b : list string) :
  glued (a ++ b) = glue (glued a) (glued b).
Proof.
  induction a as [|x a IH]; [reflexivity|].
  rewrite <- app_comm_cons, !glued_cons, IH. apply glue_assoc.
Qed.

(** The pieces of a line, trimmed and joined. *)
Lemma split_from_respace (s : string) :
  forall skip cur,
    all_chars not_linebreak cur = true -> all_chars not_linebreak s = true ->
    has_adjacent is_SP cur = false ->
    (skip = O -> last_is is_SP cur && first_is is_SP s = false) ->
    (skip <> O -> skip = 1%nat /\ cur = "" /\ first_is PyStr.isspace s = true) ->
    glued (map PyStr.strip (PyStr.split_from "  " skip cur s))
    = respace (cur ++ s).
Proof.
  induction s as [|c s IH]; intros skip cur Hcur Hs Hadj H0 Hskip.
  - simpl. rewrite app_empty_r, glued_cons, respace_plain by assumption.
    apply glue_empty_r.
  - simpl in Hs. apply andb_true_iff in Hs as [Hc Hs].
    cbn [PyStr.split_from]. destruct skip as [|k].
    + rewrite prefix_two_spaces. specialize (H0 eq_refl). simpl in H0.
      destruct (is_SP c && first_is is_SP s) eqn:Esep.
      * apply andb_true_iff in Esep as [Ec Es].
        cbn [map String.length Nat.pred]. rewrite glued_cons.
        rewrite IH; try assumption; try reflexivity; try discriminate.
        2:{ intros _. split; [reflexivity|]. split; [reflexivity|].
            destruct s; [discriminate|]. now apply is_SP_isspace. }
        rewrite append_nil.
        destruct s as [|c' s]; [discriminate|]. simpl in Es.
        change (cur ++ String c (String c' s))
          with (cur ++ String c (String c' "") ++ s).
        rewrite (respace_cut cur (String c (String c' "")) s).
        -- rewrite (respace_plain cur) by assumption.
           now rewrite (respace_skip c' s (is_SP_isspace _ Es)).
        -- simpl. now rewrite (is_SP_isspace _ Ec), (is_SP_isspace _ Es).
        -- unfold cut_gap. simpl. rewrite Ec, Es. apply orb_true_r.
      * rewrite IH.
        -- now rewrite app_assoc_str, append_cons, append_nil.
        -- rewrite all_chars_app, Hcur. simpl. now rewrite Hc.
        -- exact Hs.
        -- rewrite has_adjacent_app, Hadj. simpl.
           rewrite andb_false_r. simpl. exact H0.
        -- intros _. rewrite last_is_app. simpl. exact Esep.
        -- congruence.
    + destruct (Hskip ltac:(congruence)) as ([= ->] & -> & Hfirst).
      simpl in Hfirst. rewrite append_nil, (respace_skip c s Hfirst).
      rewrite IH; try assumption; try reflexivity; congruence.
Qed.

Lemma line_respace (l : string) :
  all_chars not_linebreak l = true ->
  glued (map PyStr.strip (PyStr.split "  " (PyStr.strip l))) = respace l.
Proof.
  intros Hl. unfold PyStr.split.
  rewrite split_from_respace; try reflexivity.
  - rewrite append_nil. apply respace_strip.
  - now apply strip_all_chars.
  - congruence.
Qed.

Lemma glued_lines (lines : list string) :
  Forall (fun l => all_chars not_linebreak l = true) lines ->
  glued (flat_map (fun line => map PyStr.strip (PyStr.split "  " line))
           (map PyStr.strip lines))
  = fold_right glue "" (map respace lines).
Proof.
  induction 1 as [|l lines Hl _ IH]; [reflexivity|].
  cbn [map flat_map fold_right]. now rewrite glued_app, IH, line_respace.
Qed.

Lemma splitlines_from_respace (n : nat) :
  forall s cur,
    (String.length s <= n)%nat ->
    fold_right glue "" (map respace (PyStr.splitlines_from cur s))
    = respace (cur ++ s).
Proof.
  induction n as [|n IH]; intros s cur Hn.
  - destruct s; [|simpl in Hn; lia]. rewrite app_empty_r. simpl.
    destruct cur; [reflexivity | apply glue_empty_r].
  - destruct s as [|c s'].
    + rewrite app_empty_r. simpl.
      destruct cur; [reflexivity | apply glue_empty_r].
    + simpl in Hn. cbn [PyStr.splitlines_from].
      destruct (PyStr.is_linebreak c) eqn:Ec.
      * change (cur ++ String c s') with (cur ++ String c "" ++ s').
        rewrite (respace_cut cur (String c "") s').
        2:{ simpl. now rewrite (linebreak_isspace c Ec). }
        2:{ unfold cut_gap, not_linebreak. simpl. now rewrite Ec. }
        cbn [map fold_right]. f_equal.
        destruct s' as [|c' s'']; [reflexivity|]. simpl in Hn.
        destruct (Ascii.eqb c PyStr.CR && Ascii.eqb c' PyStr.LF) eqn:Ecr.
        -- apply andb_true_iff in Ecr as [_ Elf].
           apply Ascii.eqb_eq in Elf. subst c'.
           rewrite (respace_skip PyStr.LF s'' eq_refl).
           rewrite IH by lia. reflexivity.
        -- rewrite IH by (simpl; lia). reflexivity.
      * rewrite IH by lia.
        now rewrite app_assoc_str, append_cons, append_nil.
Qed.

(** The three cleaning lines of [extract_text] do what one pass over the
    words of the text does. *)
Lemma clean_text_respace (text : string) : clean_text text = respace text.
Proof.
  unfold clean_text.
  change (PyStr.join " " (List.filter PyStr.truthy ?l)) with (glued l).
  rewrite glued_lines by apply splitlines_no_linebreak.
  apply (splitlines_from_respace (String.length text)). lia.
Qed.

Example respace_spaces : respace "  one   two three  " = "one two three".
Proof. reflexivity. Qed.

Example respace_lines :
  respace ("one " ++ String PyStr.CR (String PyStr.LF (String PyStr.LF " two")))
  = "one two".
Proof. reflexivity. Qed.

Example respace_tabs :
  respace ("one " ++ String PyStr.TAB (String PyStr.TAB "two"))
  = "one " ++ String PyStr.TAB (String PyStr.TAB "two").
Proof. reflexivity. Qed.

(** ** [script] and [style] elements *)

(** Induction over a parse tree, with the hypothesis on every child. *)
Lemma element_rect_children (Q : element -> Prop) :
  (forall c s, Q (NavigableString c s)) ->
  (forall n a cs, List.Forall Q cs -> Q (Tag n a cs)) ->
  forall e, Q e.
Proof.
  intros Hs Ht.
  fix rec 1. intros [c s|n a cs]; [apply Hs|].
  apply Ht. induction cs as [|e cs IH]; constructor; [apply rec | exact IH].
Qed.

Lemma remove_tags_replace_inside names f (e : element) :
  Bs4.remove_tags names (replace_inside names f e) = Bs4.remove_tags names e.
Proof.
  induction e as [c s|n a cs IH] using element_rect_children; [reflexivity|].
  simpl. destruct (Bs4.name_in names n) eqn:E; simpl; rewrite E; [reflexivity|].
  do 2 f_equal. induction IH as [|e cs He _ IHcs]; [reflexivity|].
  simpl. now rewrite He, IHcs.
Qed.

Lemma decompose_all_replace_inside names f (d : soup) :
  Bs4.decompose_all names (map (replace_inside names f) d)
  = Bs4.decompose_all names d.
Proof.
  unfold Bs4.decompose_all. induction d as [|e d IH]; [reflexivity|].
  simpl. now rewrite remove_tags_replace_inside, IH.
Qed.

(** What is left to [get_text] once the [script] and [style] elements are
    gone. *)
Lemma strings_in_remove_tags (e : element) :
  flat_map Bs4.strings_in (Bs4.remove_tags ["script"; "style"] e)
  = shown_strings e.
Proof.
  induction e as [c s|n a cs IH] using element_rect_children.
  - simpl. now rewrite app_nil_r.
  - cbn [Bs4.remove_tags shown_strings].
    destruct (Bs4.name_in ["script"; "style"] n); [reflexivity|].
    cbn [flat_map Bs4.strings_in]. rewrite app_nil_r.
    induction IH as [|e cs He _ IHcs]; [reflexivity|].
    cbn [flat_map]. now rewrite flat_map_app, He, IHcs.
Qed.

Lemma get_text_shown (d : soup) :
  Bs4.get_text (Bs4.decompose_all ["script"; "style"] d) = shown_text d.
Proof.
  unfold Bs4.get_text, Bs4.decompose_all, shown_text. f_equal.
  induction d as [|e d IH]; [reflexivity|].
  cbn [flat_map]. now rewrite flat_map_app, strings_in_remove_tags, IH.
Qed.

(** ** One turn of the loop, statement by statement *)

Section TurnFacts.
Context {U : UrlLib} {P : HtmlParser} {W : Type} {H : Http W}.

Lemma try_body_outcome (url : string) (st : state W) :
  snd (try_body url st) = try_outcome url st.
Proof.
  unfold try_body, try_outcome, after_get, mark_visited, enqueue_all, record_of.
  unfold extraction, rbind.
  unfold bind, get, sleep, http_get, lift, modify, ret, bind, time_sleep,
    sleep_refused.
  destruct (bool_decide (visited (self st) ≠ ∅)); simpl.
  - destruct (delay (self st) <? 0); simpl; [reflexivity|].
    destruct (sleep_limit <? delay (self st)); simpl; [reflexivity|].
    destruct (requests_get (world st) url) as [w' [resp|e]]; simpl; [|reflexivity].
    destruct (raise_for_status resp); simpl; [|reflexivity].
    destruct (extract_text (text resp)); simpl; [|reflexivity].
    destruct (get_links _ url (text resp)); simpl; [|reflexivity].
    destruct (page_title (text resp)); reflexivity.
  - destruct (requests_get (world st) url) as [w' [resp|e]]; simpl; [|reflexivity].
    destruct (raise_for_status resp); simpl; [|reflexivity].
    destruct (extract_text (text resp)); simpl; [|reflexivity].
    destruct (get_links _ url (text resp)); simpl; [|reflexivity].
    destruct (page_title (text resp)); reflexivity.
Qed.

Lemma after_get_self (url : string) (w' : W) (st : state W) :
  self (after_get url w' st) = self st.
Proof. unfold after_get. now destruct (bool_decide _). Qed.

Lemma after_get_pages (url : string) (w' : W) (st : state W) :
  pages_data (after_get url w' st) = pages_data st.
Proof. unfold after_get. now destruct (bool_decide _). Qed.

Lemma after_get_world (url : string) (w' : W) (st : state W) :
  world (after_get url w' st) = w'.
Proof. reflexivity. Qed.

Lemma after_get_trace (url : string) (w' : W) (st : state W) :
  trace (after_get url w' st)
  = (trace st
     ++ (if bool_decide (visited (self st) ≠ ∅)
         then [EvSleep (delay (self st))] else [])
     ++ [EvGet url])%list.
Proof.
  unfold after_get. destruct (bool_decide _); simpl.
  - now rewrite <- app_assoc.
  - reflexivity.
Qed.

Lemma enqueue_all_spec (links : list string) :
  forall st : state W,
    enqueue_all links st
    = let new := fresh_links (visited (self st)) (to_visit (self st)) links in
      {| self := set_to_visit (to_visit (self st) ++ new) (self st);
         pages_data := pages_data st; world := world st;
         trace := trace st ++ map EvAppend new |}.
Proof.
  unfold enqueue_all.
  induction links as [|l links IH]; intros st.
  - simpl. rewrite !app_nil_r. destruct st as [[] ? ? ?]; reflexivity.
  - cbn [for_each fresh_links]. unfold bind at 1. unfold enqueue at 1.
    unfold bind, get, modify, ret.
    destruct (bool_decide (l ∉ visited (self st))
              && bool_decide (l ∉ to_visit (self st))).
    + rewrite IH. simpl. rewrite <- !app_assoc. reflexivity.
    + apply IH.
Qed.

Lemma fresh_links_incl (v : gset string) (links : list string) :
  forall q x, In x (fresh_links v q links) -> In x links.
Proof.
  induction links as [|l links IH]; intros q x; simpl; [tauto|].
  destruct (bool_decide (l ∉ v) && bool_decide (l ∉ q)).
  - intros [<-|Hx]; [now left | right; eauto].
  - intros Hx. right; eauto.
Qed.

End TurnFacts.

(** ** The five ways a turn of the loop can go *)

(** Read the fields of the state a turn ends in. *)
Ltac view_simpl :=
  unfold requested, mark_visited, add_page, popped, on_self;
  cbn [self pages_data world trace];
  rewrite ?after_get_self, ?after_get_pages, ?after_get_trace;
  cbn [self pages_data world trace set_visited set_to_visit visited to_visit
       start_url max_pages delay domain].

Section TurnCases.
Context {U : UrlLib} {P : HtmlParser} {W : Type} {H : Http W}.

Lemma raise_for_status_cases (r : Response) :
  raise_for_status r = Ok tt \/ exists e, raise_for_status r = Raise e.
Proof.
  unfold raise_for_status.
  destruct ((400 <=? status_code r) && (status_code r <? 600)); eauto.
Qed.


Lemma sleep_raises_dec (st : state W) :
  (bool_decide (visited (self st) ≠ ∅) && sleep_refused (delay (self st)) = true
   /\ sleep_raises st)
  \/ (bool_decide (visited (self st) ≠ ∅) && sleep_refused (delay (self st))
      = false
      /\ ~ sleep_raises st).
Proof.
  unfold sleep_raises.
  destruct (bool_decide_reflect (visited (self st) ≠ ∅)) as [Hne|He];
    destruct (sleep_refused (delay (self st))) eqn:Er; simpl.
  - left. auto.
  - right. split; [reflexivity | intros [_ Hd]; discriminate].
  - right. split; [reflexivity | intros [Hv _]; contradiction].
  - right. split; [reflexivity | intros [Hv _]; contradiction].
Qed.


Lemma iteration_popped (st : state W) (url : string) (rest : list string) :
  to_visit (self st) = url :: rest ->
  iteration st
  = if bool_decide (url ∈ visited (self st)) then popped rest st
    else try_outcome url (popped rest st).
Proof.
  intros Hq. unfold iteration. rewrite Hq.
  cbn [on_self self visited set_to_visit].
  destruct (bool_decide (url ∈ visited (self st))); [reflexivity|].
  apply try_body_outcome.
Qed.

Lemma iteration_turn (st : state W) (url : string) (rest : list string) :
  to_visit (self st) = url :: rest -> turn st url rest (iteration st).
Proof.
  intros Hq. rewrite (iteration_popped st url rest Hq).
  destruct (bool_decide_reflect (url ∈ visited (self st))) as [Hin|Hout].
  { now apply turn_seen. }
  unfold try_outcome.
  change (visited (self (popped rest st))) with (visited (self st)).
  change (delay (self (popped rest st))) with (delay (self st)).
  change (world (popped rest st)) with (world st).
  change (domain (self (popped rest st))) with (domain (self st)).
  destruct (sleep_raises_dec st) as [[-> Hs]|[-> Hs]].
  { now apply turn_sleep_raised. }
  cbv zeta. fold (requested url rest st).
  destruct (snd (requests_get (world st) url)) as [resp|e] eqn:Eget.
  2:{ apply turn_fetch_failed; auto. unfold fetch_fails. now rewrite Eget. }
  destruct (raise_for_status_cases resp) as [Eok|[e Eerr]].
  2:{ rewrite Eerr. apply turn_fetch_failed; auto.
      unfold fetch_fails. rewrite Eget, Eerr. discriminate. }
  rewrite Eok.
  destruct (extraction (domain (self st)) url (text resp))
    as [[[txt links] title]|e] eqn:Eext.
  - eapply turn_page; eauto. split; assumption.
  - eapply turn_extraction_raised; eauto. split; assumption.
Qed.

End TurnCases.

(** ** The loop *)

Section Loop.
Context {U : UrlLib} {P : HtmlParser} {W : Type} {H : Http W}.

Lemma loop_cond_true (st : state W) :
  loop_cond st = true ->
  (exists url rest, to_visit (self st) = url :: rest)
  /\ count_visited st < max_pages (self st).
Proof.
  unfold loop_cond, count_visited. intros Hc.
  apply andb_true_iff in Hc as [Hq Hn]. apply Z.ltb_lt in Hn.
  split; [|exact Hn]. destruct (to_visit (self st)) as [|u r]; [discriminate|].
  eauto.
Qed.

Lemma loop_cond_false (st : state W) :
  loop_cond st = false ->
  to_visit (self st) = [] \/ max_pages (self st) <= count_visited st.
Proof.
  unfold loop_cond, count_visited. intros Hc.
  apply andb_false_iff in Hc as [Hq|Hn].
  - left. destruct (to_visit (self st)); [reflexivity | discriminate].
  - right. now apply Z.ltb_ge in Hn.
Qed.

(** A turn either leaves the visited set alone and shortens the frontier,
    or adds the dequeued URL, which was not there, to the visited set. *)
Lemma turn_view (st st' : state W) (url : string) (rest : list string) :
  turn st url rest st' ->
  same_config st st'
  /\ ((visited (self st') = visited (self st)
       /\ to_visit (self st') = rest
       /\ pages_data st' = pages_data st)
      \/ ((url ∉ visited (self st))
          /\ visited (self st') = (visited (self st) ∪ {[url]})
          /\ exists new, to_visit (self st') = (rest ++ new)%list)).
Proof.
  unfold same_config.
  intros [Hin|Hout Hs|Hout Hs Hf|resp e Hout Hs Hg He|txt links title resp Hout Hs Hg He].
  - simpl. split; [done | left; done].
  - simpl. split; [done | left; done].
  - view_simpl. split; [done | left; done].
  - view_simpl.
    split; [done|]. right. split; [exact Hout|]. split; [reflexivity|].
    exists []. now rewrite app_nil_r.
  - rewrite enqueue_all_spec. view_simpl.
    split; [done|]. right. split; [exact Hout|]. split; [reflexivity|]. eauto.
Qed.


Lemma count_visited_add (v : gset string) (url : string) :
  url ∉ v -> size (v ∪ {[url]}) = S (size v).
Proof.
  intros Hout. rewrite size_union by set_solver.
  rewrite size_singleton. lia.
Qed.

(** Every run of the loop ends: a turn that adds no page shortens the
    frontier, and a turn that adds one uses up one unit of the page limit. *)
Lemma crawl_loop_terminates (st : state W) :
  exists fuel st', crawl_loop fuel st = Some st' /\ loop_cond st' = false.
Proof.
  remember (Z.to_nat (max_pages (self st) - count_visited st)) as n eqn:En.
  assert (Hn : (Z.to_nat (max_pages (self st) - count_visited st) <= n)%nat) by lia.
  clear En. revert st Hn.
  induction n as [|n IHn]; intros st Hn.
  - exists O, st. simpl.
    destruct (loop_cond st) eqn:Ec; [|auto].
    apply loop_cond_true in Ec as [_ Hlt]. lia.
  - remember (length (to_visit (self st))) as m eqn:Em.
    assert (Hm : (length (to_visit (self st)) <= m)%nat) by lia.
    clear Em. revert st Hn Hm.
    induction m as [|m IHm]; intros st Hn Hm.
    + exists O, st. simpl.
      destruct (loop_cond st) eqn:Ec; [|auto].
      apply loop_cond_true in Ec as [(u & r & Eq) _].
      rewrite Eq in Hm. simpl in Hm. lia.
    + destruct (loop_cond st) eqn:Ec.
      2:{ exists O, st. simpl. rewrite Ec. auto. }
      pose proof Ec as Ec'.
      apply loop_cond_true in Ec' as [(u & r & Eq) Hlt].
      pose proof (turn_view _ _ _ _ (iteration_turn st u r Eq))
        as [(_ & Hmax & _) Hcase].
      assert (Hnext : exists fuel st',
                 crawl_loop fuel (iteration st) = Some st'
                 /\ loop_cond st' = false).
      { destruct Hcase as [(Hv & Hq & _)|(Hout & Hv & _)].
        - apply IHm.
          + unfold count_visited in *. rewrite Hmax, Hv. exact Hn.
          + rewrite Hq. rewrite Eq in Hm. simpl in Hm. lia.
        - apply IHn. unfold count_visited in *.
          rewrite Hmax, Hv, count_visited_add by exact Hout. lia. }
      destruct Hnext as (fuel & st' & Hrun & Hend).
      exists (S fuel), st'. simpl. rewrite Ec. auto.
Qed.

(** The visited set never outgrows the page limit it started under. *)
Lemma reachable_bound (st0 st : state W) :
  count_visited st0 <= max_pages (self st0) ->
  reachable st0 st ->
  max_pages (self st) = max_pages (self st0)
  /\ count_visited st <= max_pages (self st0).
Proof.
  intros H0 Hr. induction Hr as [|st Hr [IHmax IHn] Hc]; [auto|].
  apply loop_cond_true in Hc as [(u & r & Eq) Hlt].
  pose proof (turn_view _ _ _ _ (iteration_turn st u r Eq))
    as [(_ & Hmax & _) Hcase].
  split; [congruence|]. unfold count_visited in *.
  destruct Hcase as [(Hv & _)|(Hout & Hv & _)]; rewrite Hv.
  - exact IHn.
  - rewrite count_visited_add by exact Hout. lia.
Qed.

Lemma crawl_loop_reachable (fuel : nat) :
  forall st st', crawl_loop fuel st = Some st' -> reachable st st'.
Proof.
  induction fuel as [|fuel IH]; intros st st'; simpl;
    destruct (loop_cond st) eqn:Ec; try discriminate.
  - intros [= <-]. constructor.
  - intros Hrun. apply IH in Hrun.
    clear IH. induction Hrun as [|s Hr IHr Hc].
    + apply reach_turn; [constructor | exact Ec].
    + apply reach_turn; assumption.
  - intros [= <-]. constructor.
Qed.

End Loop.

(** ** A turn under known outcomes of the request and the extraction *)

Section KnownTurns.
Context {U : UrlLib} {P : HtmlParser} {W : Type} {H : Http W}.

Lemma raise_for_status_error (r : Response) :
  raise_for_status r <> Ok tt <-> 400 <= status_code r < 600.
Proof.
  unfold raise_for_status.
  destruct (Z.leb_spec 400 (status_code r));
    destruct (Z.ltb_spec (status_code r) 600); simpl;
    split; try congruence; try lia; intros _; discriminate.
Qed.

Lemma try_outcome_fetch_failed (st : state W) (url : string) :
  ~ sleep_raises st -> fetch_fails (world st) url ->
  try_outcome url st = after_get url (fst (requests_get (world st) url)) st.
Proof.
  intros Hs Hf. unfold try_outcome.
  destruct (sleep_raises_dec st) as [[_ Hs']|[-> _]]; [contradiction|].
  cbv zeta. unfold fetch_fails in Hf.
  destruct (snd (requests_get (world st) url)) as [resp|e]; [|reflexivity].
  destruct (raise_for_status resp) as [[]|e]; [congruence | reflexivity].
Qed.


Lemma popped_sleep_raises (st : state W) (rest : list string) :
  sleep_raises (popped rest st) <-> sleep_raises st.
Proof. reflexivity. Qed.

Lemma iteration_seen (st : state W) (url : string) (rest : list string) :
  to_visit (self st) = url :: rest -> url ∈ visited (self st) ->
  iteration st = popped rest st.
Proof.
  intros Hq Hin. rewrite (iteration_popped st url rest Hq).
  now rewrite bool_decide_eq_true_2.
Qed.


Lemma iteration_fetch_failed (st : state W) (url : string) (rest : list string) :
  to_visit (self st) = url :: rest -> url ∉ visited (self st) ->
  ~ sleep_raises st -> fetch_fails (world st) url ->
  iteration st = requested url rest st.
Proof.
  intros Hq Hout Hs Hf. rewrite (iteration_popped st url rest Hq).
  rewrite bool_decide_eq_false_2 by exact Hout.
  now apply try_outcome_fetch_failed.
Qed.



End KnownTurns.

(** ** Projections of the trace *)

Lemma gets_app (t1 t2 : list event) : gets (t1 ++ t2) = (gets t1 ++ gets t2)%list.
Proof.
  induction t1 as [|[] t1 IH]; simpl; [reflexivity| | |]; now rewrite ?IH.
Qed.

Lemma appends_app (t1 t2 : list event) :
  appends (t1 ++ t2) = (appends t1 ++ appends t2)%list.
Proof.
  induction t1 as [|[] t1 IH]; simpl; [reflexivity| | |]; now rewrite ?IH.
Qed.


Lemma gets_appended (l : list string) : gets (map EvAppend l) = [].
Proof. induction l; simpl; auto. Qed.


Lemma appends_appended (l : list string) : appends (map EvAppend l) = l.
Proof. induction l; simpl; congruence. Qed.

(** ** [get_links] *)

Section LinkFacts.
Context {U : UrlLib} {P : HtmlParser}.

Lemma get_links_loop_spec (dom url : string) (anchors : list element) :
  forall acc links,
    get_links_loop dom url anchors acc = Ok links ->
    exists found,
      links = (acc ++ found)%list
      /\ forall u, In u found <->
           exists t h, In t anchors /\ href_of t = Ok h
                       /\ resolves_in_scope dom url h u.
Proof.
  unfold resolves_in_scope.
  induction anchors as [|t anchors IH]; intros acc links; simpl.
  - intros [= <-]. exists []. rewrite app_nil_r. split; [reflexivity|].
    intros u. split; [intros [] | intros (? & ? & [] & _)].
  - destruct (href_of t) as [h|e] eqn:Eh; simpl; [|discriminate].
    destruct (urljoin url h) as [abs|e] eqn:Ej; simpl; [|discriminate].
    destruct (is_valid_url dom abs) as [valid|e] eqn:Ev; simpl; [|discriminate].
    intros Hrun. apply IH in Hrun as (found & -> & Hfound).
    destruct valid.
    + exists (abs :: found). rewrite <- app_assoc. split; [reflexivity|].
      intros u. split.
      * intros [<-|Hu]; [exists t, h; auto|].
        apply Hfound in Hu as (t' & h' & Ht' & Hrest). exists t', h'. auto.
      * intros (t' & h' & [<-|Ht'] & Eh' & Ej' & Ev').
        -- left. congruence.
        -- right. apply Hfound. exists t', h'. auto.
    + exists found. split; [reflexivity|].
      intros u. split.
      * intros Hu. apply Hfound in Hu as (t' & h' & Ht' & Hrest).
        exists t', h'. auto.
      * intros (t' & h' & [<-|Ht'] & Eh' & Ej' & Ev').
        -- congruence.
        -- apply Hfound. exists t', h'. auto.
Qed.

Lemma has_href_true (n : string) (a : list (string * string)) :
  has_href n a = true <-> n = "a" /\ exists h, Bs4.get_attr "href" a = Some h.
Proof.
  unfold has_href. rewrite andb_true_iff, String.eqb_eq, bool_decide_eq_true.
  reflexivity.
Qed.

Lemma find_all_in_anchor (e : element) :
  forall h,
    (exists t, In t (Bs4.find_all_in has_href e) /\ href_of t = Ok h)
    <-> has_anchor e h.
Proof.
  induction e as [c s|n a cs IH] using element_rect_children; intros h.
  - split; [intros (t & [] & _) | intros Ha; inversion Ha].
  - rewrite List.Forall_forall in IH. cbn [Bs4.find_all_in]. split.
    + intros (t & Hin & Eh). apply in_app_or in Hin as [Hin|Hin].
      * destruct (has_href n a) eqn:En; [|destruct Hin].
        destruct Hin as [<-|[]]. apply has_href_true in En as [-> _].
        simpl in Eh. apply anchor_here.
        destruct (Bs4.get_attr "href" a); congruence.
      * apply in_flat_map in Hin as (e & He & Hin).
        apply (anchor_below n a cs e h He). apply (IH e He). eauto.
    + intros Ha. inversion Ha as [a' cs' h' Eattr|n' a' cs' e h' He Hbelow]; subst.
      * exists (Tag "a" a cs). split.
        -- apply in_or_app. left.
           assert (En : has_href "a" a = true) by (apply has_href_true; eauto).
           rewrite En. now left.
        -- simpl. now rewrite Eattr.
      * apply (IH e He) in Hbelow as (t & Hin & Eh).
        exists t. split; [|exact Eh]. apply in_or_app. right.
        apply in_flat_map. eauto.
Qed.

Lemma find_all_anchor (d : soup) (h : string) :
  (exists t, In t (Bs4.find_all has_href d) /\ href_of t = Ok h)
  <-> soup_has_anchor d h.
Proof.
  unfold Bs4.find_all, soup_has_anchor. split.
  - intros (t & Hin & Eh). apply in_flat_map in Hin as (e & He & Hin).
    exists e. split; [exact He|]. apply find_all_in_anchor. eauto.
  - intros (e & He & Ha). apply find_all_in_anchor in Ha as (t & Hin & Eh).
    exists t. split; [|exact Eh]. apply in_flat_map. eauto.
Qed.

(** The links returned are the in-scope resolutions of the references of
    the page, and nothing else. *)
Lemma get_links_soup_spec (dom url : string) (d : soup) (links : list string) :
  get_links_soup dom url d = Ok links ->
  forall u, In u links <->
    exists h, soup_has_anchor d h /\ resolves_in_scope dom url h u.
Proof.
  unfold get_links_soup. intros Hrun.
  apply get_links_loop_spec in Hrun as (found & -> & Hfound).
  intros u. simpl. rewrite Hfound. split.
  - intros (t & h & Hin & Eh & Hres). exists h. split; [|exact Hres].
    apply find_all_anchor. eauto.
  - intros (h & Ha & Hres). apply find_all_anchor in Ha as (t & Hin & Eh).
    exists t, h. auto.
Qed.

Lemma get_links_valid (dom url html : string) (links : list string) :
  get_links dom url html = Ok links ->
  forall u, In u links -> is_valid_url dom u = Ok true.
Proof.
  unfold get_links. destruct (BeautifulSoup html) as [d|e]; simpl; [|discriminate].
  intros Hrun u Hu.
  apply (get_links_soup_spec dom url d links Hrun) in Hu as (h & _ & _ & Hv).
  exact Hv.
Qed.

Lemma find_all_in_hrefs (e : element) :
  map href_of (Bs4.find_all_in has_href e) = map Ok (hrefs_in e).
Proof.
  induction e as [c s|n a cs IH] using element_rect_children; [reflexivity|].
  cbn [Bs4.find_all_in hrefs_in]. rewrite !map_app. f_equal.
  - unfold has_href. destruct (String.eqb n "a"); [|reflexivity].
    destruct (Bs4.get_attr "href" a) as [h|] eqn:Eh.
    + rewrite bool_decide_eq_true_2 by eauto. simpl. now rewrite Eh.
    + rewrite bool_decide_eq_false_2 by (intros [h Hh]; discriminate).
      reflexivity.
  - induction IH as [|e cs He _ IHcs]; [reflexivity|].
    cbn [flat_map]. now rewrite !map_app, He, IHcs.
Qed.

Lemma find_all_hrefs (d : soup) :
  map href_of (Bs4.find_all has_href d) = map Ok (hrefs_of d).
Proof.
  unfold Bs4.find_all, hrefs_of. induction d as [|e d IH]; [reflexivity|].
  cbn [flat_map]. now rewrite !map_app, find_all_in_hrefs, IH.
Qed.

Lemma hrefs_of_anchor (d : soup) (h : string) :
  In h (hrefs_of d) <-> soup_has_anchor d h.
Proof.
  rewrite <- find_all_anchor. split.
  - intros Hin. apply (in_map Ok) in Hin. rewrite <- find_all_hrefs in Hin.
    apply in_map_iff in Hin as (t & Eh & Ht). eauto.
  - intros (t & Ht & Eh). apply (in_map href_of) in Ht.
    rewrite Eh, find_all_hrefs in Ht.
    apply in_map_iff in Ht as (h' & [= ->] & Hin). exact Hin.
Qed.

(** The loop of [get_links] keeps, in order, the in-scope resolutions. *)
Lemma get_links_loop_kept (dom url : string) (anchors : list element) :
  forall hrefs acc links,
    map href_of anchors = map Ok hrefs ->
    get_links_loop dom url anchors acc = Ok links
    <-> exists found,
          links = (acc ++ found)%list /\ kept_links dom url hrefs found.
Proof.
  induction anchors as [|t anchors IH]; intros hrefs acc links Hmap.
  - destruct hrefs; [|discriminate]. simpl. split.
    + intros [= <-]. exists []. rewrite app_nil_r. split; constructor.
    + intros (found & -> & Hk). inversion Hk. now rewrite app_nil_r.
  - destruct hrefs as [|h hrefs]; [discriminate|].
    simpl in Hmap. injection Hmap as Eh Hmap.
    cbn [get_links_loop]. rewrite Eh. cbn [rbind].
    destruct (urljoin url h) as [u|e] eqn:Ej; cbn [rbind].
    2:{ split; [discriminate|]. intros (found & _ & Hk).
        inversion Hk as [|? ? ? ? [Ej' _]|? ? ? ? Ej']; congruence. }
    destruct (is_valid_url dom u) as [valid|e] eqn:Ev; cbn [rbind].
    2:{ split; [discriminate|]. intros (found & _ & Hk).
        inversion Hk as [|? ? ? ? [Ej' Ev']|? ? ? ? Ej' Ev']; congruence. }
    rewrite (IH hrefs _ links Hmap). destruct valid.
    + split.
      * intros (found & -> & Hk). exists (u :: found).
        rewrite <- app_assoc. split; [reflexivity|].
        apply kept_in_scope; [split; assumption | exact Hk].
      * intros (found & -> & Hk).
        inversion Hk as [|? ? u' found' [Ej' Ev'] Hk'|? ? u' ? Ej' Ev'];
          subst; [|congruence].
        exists found'. rewrite <- app_assoc.
        split; [|exact Hk']. simpl. congruence.
    + split.
      * intros (found & -> & Hk). exists found. split; [reflexivity|].
        now apply (kept_out_of_scope dom url h hrefs u).
      * intros (found & -> & Hk).
        inversion Hk as [|? ? u' found' [Ej' Ev'] Hk'|? ? u' ? Ej' Ev' Hk'];
          subst; [congruence|].
        exists found. auto.
Qed.

Lemma get_links_soup_kept (dom url : string) (d : soup) (links : list string) :
  get_links_soup dom url d = Ok links
  <-> kept_links dom url (hrefs_of d) links.
Proof.
  unfold get_links_soup.
  rewrite (get_links_loop_kept dom url _ (hrefs_of d) [] links
             (find_all_hrefs d)).
  split.
  - intros (found & -> & Hk). exact Hk.
  - intros Hk. exists links. auto.
Qed.

(** Each URL is listed once for every reference that resolves to it. *)
Lemma kept_links_count (dom url : string) (hrefs links : list string) :
  kept_links dom url hrefs links ->
  forall u,
    count_occ string_dec links u
    = length (List.filter (refers_to dom url u) hrefs).
Proof.
  induction 1 as [|h hrefs u0 links [Ej Ev] _ IH|h hrefs u0 links Ej Ev _ IH];
    intros u; [reflexivity| |].
  - cbn [List.filter count_occ]. unfold refers_to at 1. rewrite Ej, Ev.
    destruct (string_dec u0 u) as [->|Hne].
    + rewrite String.eqb_refl. simpl. now rewrite IH.
    + apply String.eqb_neq in Hne. rewrite Hne. apply IH.
  - cbn [List.filter]. unfold refers_to at 1. rewrite Ej, Ev. apply IH.
Qed.

End LinkFacts.

(** ** Runs *)

Section Runs.
Context {U : UrlLib} {P : HtmlParser} {W : Type} {H : Http W}.

Lemma reachable_config (st0 st : state W) :
  reachable st0 st -> same_config st0 st.
Proof.
  unfold same_config. intros Hr.
  induction Hr as [|st Hr (I1 & I2 & I3 & I4) Hc]; [done|].
  apply loop_cond_true in Hc as [(u & r & Eq) _].
  destruct (turn_view _ _ _ _ (iteration_turn st u r Eq))
    as [(C1 & C2 & C3 & C4) _].
  repeat split; congruence.
Qed.

(** More fuel does not change the result of a run that has ended. *)
Lemma crawl_loop_more_fuel (fuel : nat) :
  forall (st st' : state W) (extra : nat),
    crawl_loop fuel st = Some st' -> crawl_loop (fuel + extra) st = Some st'.
Proof.
  induction fuel as [|fuel IH]; intros st st' extra; simpl.
  - destruct (loop_cond st) eqn:Ec; [discriminate|].
    intros Hrun. destruct extra; simpl; now rewrite Ec.
  - destruct (loop_cond st); [apply IH | trivial].
Qed.


End Runs.

(** * The page limit and the end of the loop *)

Section PageLimit.
Context {U : UrlLib} {P : HtmlParser} {W : Type} {H : Http W}.

(** C1.  In every run of the crawl loop that starts with no more visited
    pages than the limit (a fresh crawler with a limit of at least 0), the
    size of the visited set never exceeds [max_pages]; the loop stops
    exactly in the states where the size equals [max_pages] or the frontier
    is empty; and the run does reach such a state. *)
Theorem visited_never_exceeds_max_pages (c : SimpleCrawler) (w : W) :
  Z.of_nat (size (visited c)) <= max_pages c ->
  (forall st, reachable (enter c w) st ->
     count_visited st <= max_pages c
     /\ (loop_cond st = false
         <-> count_visited st = max_pages c \/ to_visit (self st) = []))
  /\ (exists fuel st,
        crawl fuel c w = Some st
        /\ (count_visited st = max_pages c \/ to_visit (self st) = [])).
Proof.
  intros Hc.
  assert (Hreach : forall st, reachable (enter c w) st ->
            count_visited st <= max_pages c
            /\ (loop_cond st = false
                <-> count_visited st = max_pages c \/ to_visit (self st) = [])).
  { intros st Hr.
    destruct (reachable_bound (enter c w) st Hc Hr) as [Hmax Hle].
    simpl in Hmax, Hle. split; [exact Hle|]. split.
    - intros Hf. apply loop_cond_false in Hf as [Hq|Hn]; [now right|].
      left. lia.
    - intros Hstop. unfold loop_cond. fold (count_visited st).
      destruct Hstop as [Heq|Hq].
      + apply andb_false_intro2. apply Z.ltb_ge. lia.
      + rewrite Hq. reflexivity. }
  split; [exact Hreach|].
  destruct (crawl_loop_terminates (enter c w)) as (fuel & st & Hrun & Hend).
  exists fuel, st. split; [exact Hrun|].
  apply (Hreach st); [|exact Hend].
  exact (crawl_loop_reachable fuel _ _ Hrun).
Qed.

(** C10.  Whatever the requests and the extractions do, the crawl loop comes
    to its end: with enough fuel [crawl] returns, in a state where the
    frontier is empty or the page limit is reached.  No exception leaves a
    turn of the loop: [iteration] is a total function of the state. *)
Theorem crawl_always_stops (c : SimpleCrawler) (w : W) :
  exists fuel st,
    (forall extra, crawl (fuel + extra) c w = Some st)
    /\ (to_visit (self st) = [] \/ max_pages c <= count_visited st).
Proof.
  destruct (crawl_loop_terminates (enter c w)) as (fuel & st & Hrun & Hend).
  exists fuel, st. split.
  - intros extra. now apply crawl_loop_more_fuel.
  - destruct (reachable_config _ _ (crawl_loop_reachable fuel _ _ Hrun))
      as (_ & Hmax & _).
    simpl in Hmax. rewrite <- Hmax. now apply loop_cond_false.
Qed.

End PageLimit.

(** With a limit below 0 the loop is not entered; the empty visited set is
    then larger than the limit, which is why the bound is stated for runs
    that start within their limit. *)
Example negative_limit_never_enters :
  crawl (U := Sample.urls) (P := Sample.parser) (H := Sample.site)
    O (Sample.fresh Sample.home "example.com" (-1) 1) O
  = Some (enter (Sample.fresh Sample.home "example.com" (-1) 1) O).
Proof. reflexivity. Qed.

(** C1 on the sample site, with a limit of three pages. *)
Lemma visited_never_exceeds_max_pages_sample :
  (forall st,
     reachable (U := Sample.urls) (P := Sample.parser) (H := Sample.site)
       (enter (Sample.fresh Sample.home "example.com" 3 1) O) st ->
     count_visited st <= 3
     /\ (loop_cond st = false
         <-> count_visited st = 3 \/ to_visit (self st) = []))
  /\ (exists fuel st,
        crawl (U := Sample.urls) (P := Sample.parser) (H := Sample.site)
          fuel (Sample.fresh Sample.home "example.com" 3 1) O = Some st
        /\ (count_visited st = 3 \/ to_visit (self st) = [])).
Proof.
  apply (visited_never_exceeds_max_pages
           (U := Sample.urls) (P := Sample.parser) (H := Sample.site)
           (Sample.fresh Sample.home "example.com" 3 1) O).
  vm_compute. discriminate.
Defined.

(** * Errors inside a turn *)

Section TurnErrors.
Context {U : UrlLib} {P : HtmlParser} {W : Type} {H : Http W}.



End TurnErrors.





(** * The scope of the frontier *)

Section Scope.
Context {U : UrlLib} {P : HtmlParser} {W : Type} {H : Http W}.

Lemma extraction_links (dom url html txt : string) (links : list string)
  (title : option string) :
  extraction dom url html = Ok (txt, links, title) ->
  get_links dom url html = Ok links.
Proof.
  unfold extraction.
  destruct (extract_text html); simpl; [|discriminate].
  destruct (get_links dom url html); simpl; [|discriminate].
  destruct (page_title html); simpl; [|discriminate].
  congruence.
Qed.

Lemma appends_after_get (url : string) (w' : W) (st : state W) :
  appends (trace (after_get url w' st)) = appends (trace st).
Proof.
  rewrite after_get_trace, !appends_app.
  destruct (bool_decide _); simpl; now rewrite app_nil_r.
Qed.

(** Whatever a turn appends to the frontier is in scope. *)
Lemma turn_appends_valid (st st' : state W) (url : string) (rest : list string) :
  turn st url rest st' ->
  forall u, In u (appends (trace st')) ->
    In u (appends (trace st))
    \/ is_valid_url (domain (self st)) u = Ok true.
Proof.
  intros [Hin|Hout Hs|Hout Hs Hf|resp e Hout Hs Hg He
          |txt links title resp Hout Hs Hg He] u.
  - auto.
  - auto.
  - unfold requested. rewrite appends_after_get. auto.
  - unfold mark_visited, requested, on_self. cbn [trace].
    rewrite appends_after_get. auto.
  - rewrite enqueue_all_spec. cbv zeta. cbn [trace].
    rewrite appends_app, appends_appended.
    unfold add_page, mark_visited, requested, on_self. cbn [trace].
    rewrite appends_after_get. intros Hu.
    apply in_app_or in Hu as [Hu|Hu]; [now left | right].
    apply fresh_links_incl in Hu.
    exact (get_links_valid _ _ _ _ (extraction_links _ _ _ _ _ _ He) u Hu).
Qed.

Lemma reachable_appends_valid (st0 st : state W) :
  reachable st0 st ->
  forall u, In u (appends (trace st)) ->
    In u (appends (trace st0))
    \/ is_valid_url (domain (self st0)) u = Ok true.
Proof.
  intros Hr. induction Hr as [|st Hr IH Hc]; intros u Hu; [now left|].
  pose proof (reachable_config _ _ Hr) as (_ & _ & _ & Hdom).
  apply loop_cond_true in Hc as [(url & rest & Eq) _].
  apply (turn_appends_valid _ _ _ _ (iteration_turn st url rest Eq)) in Hu.
  destruct Hu as [Hu|Hu]; [auto | right; congruence].
Qed.

(** C5, amended.  Every URL the crawl loop appends to the frontier is in
    scope when it is appended.  The start URL is put on the frontier by the
    constructor without a test; it is in scope exactly when its scheme and
    its host are not empty. *)
Theorem appended_links_are_in_scope (start : string) (max d : Z)
  (c : SimpleCrawler) (w : W) :
  init start max d = Ok c ->
  (forall st u,
     reachable (enter c w) st -> In u (appends (trace st)) ->
     is_valid_url (domain c) u = Ok true)
  /\ to_visit c = [start]
  /\ (exists parsed,
        urlparse start = Ok parsed
        /\ is_valid_url (domain c) start
           = Ok (PyStr.truthy (netloc parsed) && PyStr.truthy (scheme parsed))).
Proof.
  intros Hinit. split; [|split].
  - intros st u Hr Hu.
    destruct (reachable_appends_valid _ _ Hr u Hu) as [[]|Hv]. exact Hv.
  - unfold init in Hinit. destruct (urlparse start); simpl in Hinit;
      [|discriminate].
    injection Hinit as <-. reflexivity.
  - unfold init in Hinit. destruct (urlparse start) as [parsed|e] eqn:Ep;
      simpl in Hinit; [|discriminate].
    injection Hinit as <-. exists parsed. split; [reflexivity|].
    unfold is_valid_url. rewrite Ep. simpl.
    now rewrite String.eqb_refl, andb_true_r.
Qed.

End Scope.

(** C5 on the sample site. *)
Lemma appended_links_are_in_scope_sample :
  (forall st u,
     reachable (U := Sample.urls) (P := Sample.parser) (H := Sample.site)
       (enter (Sample.fresh Sample.home "example.com" 5 1) O) st ->
     In u (appends (trace st)) ->
     is_valid_url (U := Sample.urls) "example.com" u = Ok true)
  /\ to_visit (Sample.fresh Sample.home "example.com" 5 1) = [Sample.home]
  /\ (exists parsed,
        urlparse (UrlLib := Sample.urls) Sample.home = Ok parsed
        /\ is_valid_url (U := Sample.urls) "example.com" Sample.home
           = Ok (PyStr.truthy (netloc parsed) && PyStr.truthy (scheme parsed))).
Proof.
  apply (appended_links_are_in_scope
           (U := Sample.urls) (P := Sample.parser) (H := Sample.site)
           Sample.home 5 1 (Sample.fresh Sample.home "example.com" 5 1) O).
  reflexivity.
Defined.

(** C5 as stated fails for the start URL: a start URL without a scheme is
    put on the frontier and is not in scope. *)
Lemma start_url_out_of_scope :
  init (U := Sample.urls) "example.com" 5 1
  = Ok (Sample.fresh "example.com" "" 5 1)
  /\ to_visit (Sample.fresh "example.com" "" 5 1) = ["example.com"]
  /\ is_valid_url (U := Sample.urls) "" "example.com" = Ok false.
Proof. repeat split. Qed.

(** * The page extractors *)

Section ExtractorResults.
Context {U : UrlLib} {P : HtmlParser}.

(** C7, amended.  [get_links] returns a list, not a set.  Going through
    the [href] values of the [a] tags of the page in document order, it
    lists what each resolves to against the page URL when that passes
    [is_valid_url], and skips the others: the list holds one entry for each
    reference in scope, in order, and no other list does.  So its members
    are exactly the in-scope resolutions of the references of the page, and
    a URL is listed as many times as there are references that resolve to
    it: duplicates are kept. *)
Theorem get_links_members (dom url html : string) (d : soup)
  (links : list string) :
  BeautifulSoup html = Ok d ->
  get_links dom url html = Ok links ->
  kept_links dom url (hrefs_of d) links
  /\ (forall links', kept_links dom url (hrefs_of d) links' -> links' = links)
  /\ (forall u,
        In u links <->
        exists h, soup_has_anchor d h
                  /\ urljoin url h = Ok u /\ is_valid_url dom u = Ok true)
  /\ (forall u,
        count_occ string_dec links u
        = length (List.filter (refers_to dom url u) (hrefs_of d))).
Proof.
  intros Hd Hrun. unfold get_links in Hrun. rewrite Hd in Hrun. simpl in Hrun.
  pose proof Hrun as Hk. apply get_links_soup_kept in Hk.
  split; [exact Hk|]. split; [|split].
  - intros links' Hk'. apply get_links_soup_kept in Hk'. congruence.
  - exact (get_links_soup_spec dom url d links Hrun).
  - now apply kept_links_count.
Qed.

(** C6, amended.  [extract_text] removes the [script] and [style] elements:
    the text it keeps is that of the text nodes outside them, in document
    order, and the result is the same whatever stands inside them.  Of the
    text kept, the result holds every word, in order; the white space before
    the first word and after the last one is dropped; the white space
    between two words becomes one space when it holds a line boundary or two
    spaces side by side, and is kept as it is otherwise (tabs, or a space
    next to a tab, are not collapsed).  So the result holds no line boundary
    and no two spaces in a row, and neither starts nor ends with white
    space. *)
Theorem extract_text_drops_scripts_and_tidies (html : string) (d : soup) :
  BeautifulSoup html = Ok d ->
  extract_text html = Ok (extract_text_soup d)
  /\ extract_text_soup d = respace (shown_text d)
  /\ (forall f,
        extract_text_soup (map (replace_inside ["script"; "style"] f) d)
        = extract_text_soup d)
  /\ tidy (extract_text_soup d).
Proof.
  intros Hd. split; [|split; [|split]].
  - unfold extract_text. now rewrite Hd.
  - unfold extract_text_soup. rewrite get_text_shown.
    apply clean_text_respace.
  - intros f. unfold extract_text_soup.
    now rewrite decompose_all_replace_inside.
  - apply clean_text_tidy.
Qed.

(** The title entry when the page has no [title] tag, and when its [title]
    tag holds one string. *)
Lemma page_title_absent (html : string) (d : soup) :
  BeautifulSoup html = Ok d -> Bs4.title d = None ->
  page_title html = Ok (Some "No title").
Proof. intros Hd Ht. unfold page_title. rewrite Hd. simpl. now rewrite Ht. Qed.

Lemma page_title_single_string (html : string) (d : soup)
  (a : list (string * string)) (cls : string_class) (s : string) :
  BeautifulSoup html = Ok d ->
  Bs4.title d = Some (Tag "title" a [NavigableString cls s]) ->
  page_title html = Ok (Some s).
Proof.
  intros Hd Ht. unfold page_title, title_of_soup. rewrite Hd. simpl.
  now rewrite Ht.
Qed.

End ExtractorResults.

(** C7 on the home page of the sample site: three references, two of them
    in scope. *)
Lemma get_links_members_sample :
  kept_links (U := Sample.urls) "example.com" Sample.home
    (hrefs_of
       (Sample.page (Sample.title_tag "Home")
          [Sample.a_tag "/a" "A"; Sample.a_tag "/b" "B";
           Sample.a_tag "http://other.org/" "O"]))
    ["http://example.com/a"; "http://example.com/b"]
  /\ (forall links',
        kept_links (U := Sample.urls) "example.com" Sample.home
          (hrefs_of
             (Sample.page (Sample.title_tag "Home")
                [Sample.a_tag "/a" "A"; Sample.a_tag "/b" "B";
                 Sample.a_tag "http://other.org/" "O"])) links' ->
        links' = ["http://example.com/a"; "http://example.com/b"])
  /\ (forall u,
        In u ["http://example.com/a"; "http://example.com/b"] <->
        exists h,
          soup_has_anchor
            (Sample.page (Sample.title_tag "Home")
               [Sample.a_tag "/a" "A"; Sample.a_tag "/b" "B";
                Sample.a_tag "http://other.org/" "O"]) h
          /\ urljoin (UrlLib := Sample.urls) Sample.home h = Ok u
          /\ is_valid_url (U := Sample.urls) "example.com" u = Ok true)
  /\ (forall u,
        count_occ string_dec ["http://example.com/a"; "http://example.com/b"] u
        = length
            (List.filter (refers_to (U := Sample.urls) "example.com" Sample.home u)
               (hrefs_of
                  (Sample.page (Sample.title_tag "Home")
                     [Sample.a_tag "/a" "A"; Sample.a_tag "/b" "B";
                      Sample.a_tag "http://other.org/" "O"])))).
Proof.
  apply (get_links_members (U := Sample.urls) (P := Sample.parser)
           "example.com" Sample.home Sample.home_html); reflexivity.
Defined.

(** C7 as stated fails: two references to one URL give a list with that URL
    twice. *)
Lemma get_links_repeats :
  get_links (U := Sample.urls) (P := Sample.parser)
    "example.com" Sample.home Sample.twice_html
  = Ok ["http://example.com/a"; "http://example.com/a"].
Proof. reflexivity. Qed.

(** C6 on the home page of the sample site. *)
Lemma extract_text_sample :
  extract_text (P := Sample.parser) Sample.home_html
  = Ok (extract_text_soup
          (Sample.page (Sample.title_tag "Home")
             [Sample.a_tag "/a" "A"; Sample.a_tag "/b" "B";
              Sample.a_tag "http://other.org/" "O"]))
  /\ extract_text_soup
       (Sample.page (Sample.title_tag "Home")
          [Sample.a_tag "/a" "A"; Sample.a_tag "/b" "B";
           Sample.a_tag "http://other.org/" "O"])
     = respace
         (shown_text
            (Sample.page (Sample.title_tag "Home")
               [Sample.a_tag "/a" "A"; Sample.a_tag "/b" "B";
                Sample.a_tag "http://other.org/" "O"]))
  /\ (forall f,
        extract_text_soup
          (map (replace_inside ["script"; "style"] f)
             (Sample.page (Sample.title_tag "Home")
                [Sample.a_tag "/a" "A"; Sample.a_tag "/b" "B";
                 Sample.a_tag "http://other.org/" "O"]))
        = extract_text_soup
            (Sample.page (Sample.title_tag "Home")
               [Sample.a_tag "/a" "A"; Sample.a_tag "/b" "B";
                Sample.a_tag "http://other.org/" "O"]))
  /\ tidy (extract_text_soup
             (Sample.page (Sample.title_tag "Home")
                [Sample.a_tag "/a" "A"; Sample.a_tag "/b" "B";
                 Sample.a_tag "http://other.org/" "O"])).
Proof.
  apply (extract_text_drops_scripts_and_tidies (P := Sample.parser)
           Sample.home_html). reflexivity.
Defined.

(** C6 as stated fails: two tabs between two words are a run of white space
    that [extract_text] leaves as it is. *)
Lemma extract_text_keeps_tabs :
  extract_text (P := Sample.parser) Sample.tabbed_html = Ok Sample.tabbed_text
  /\ has_adjacent PyStr.isspace Sample.tabbed_text = true.
Proof. split; reflexivity. Qed.

(** The text of a [script] element is not part of the result. *)
Example extract_text_script :
  extract_text_soup
    [Tag "p" [] [NavigableString PlainString "shown"];
     Tag "script" [] [NavigableString OtherString "var hidden = 1;"];
     Tag "style" [] [NavigableString PlainString "p { color: red }"]]
  = "shown".
Proof. reflexivity. Qed.

(** C8.  A page whose [title] tag is empty gets Python's [None], not a
    string, as its title entry. *)
Theorem empty_title_gives_none :
  page_title (P := Sample.parser) Sample.empty_title_html = Ok None
  /\ pages_data (sample_first_turn "http://example.com/untitled")
     = [{| page_url := "http://example.com/untitled";
           page_title_field := None;
           text_length := 1; links_found := 0 |}].
Proof. split; reflexivity. Qed.

(** * Pacing *)


Section Pacing.
Context {U : UrlLib} {P : HtmlParser} {W : Type} {H : Http W}.






End Pacing.


(** * Breadth-first order *)


Section PageTurn.
Context {U : UrlLib} {P : HtmlParser} {W : Type} {H : Http W}.




End PageTurn.

Section BreadthFirst.
Context {U : UrlLib} {P : HtmlParser} {W : Type} {H : Http W}.
Variables (start a b c : string) (cr : SimpleCrawler) (w0 : W).
Variables (page_s page_a page_b : Response).
Variables (txt_s txt_a txt_b : string) (title_s title_a title_b : option string).
Variable links_b : list string.

Hypothesis distinct :
  start <> a /\ start <> b /\ start <> c /\ a <> b /\ a <> c /\ b <> c.
Hypothesis fresh_crawler : visited cr = ∅ /\ to_visit cr = [start].
Hypothesis delay_ok : 0 <= delay cr <= sleep_limit.
Hypothesis serve_start : forall w, fetch_gives w start page_s.
Hypothesis serve_a : forall w, fetch_gives w a page_a.
Hypothesis serve_b : forall w, fetch_gives w b page_b.
Hypothesis start_links :
  extraction (domain cr) start (text page_s) = Ok (txt_s, [a; b], title_s).
Hypothesis a_links :
  extraction (domain cr) a (text page_a) = Ok (txt_a, [c], title_a).
Hypothesis b_links :
  extraction (domain cr) b (text page_b) = Ok (txt_b, links_b, title_b).





Lemma not_in_add (v : gset string) (x y : string) :
  x ∉ v -> x <> y -> x ∉ v ∪ {[y]}.
Proof.
  intros Hv Hne Hin. apply elem_of_union in Hin as [Hin|Hin].
  - contradiction.
  - apply elem_of_singleton in Hin. contradiction.
Qed.








End BreadthFirst.



(** * Further properties of a run *)

Section TurnEffects.
Context {U : UrlLib} {P : HtmlParser} {W : Type} {H : Http W}.

Lemma gets_after_get (url : string) (w' : W) (st : state W) :
  gets (trace (after_get url w' st)) = (gets (trace st) ++ [url])%list.
Proof.
  rewrite after_get_trace, !gets_app. destruct (bool_decide _); reflexivity.
Qed.

(** What a turn does to each part of the state: either it visits nothing,
    or it visits the dequeued URL and appends the new ones among its links. *)
Lemma turn_effect (st st' : state W) (url : string) (rest : list string) :
  turn st url rest st' ->
  (visited (self st') = visited (self st)
   /\ to_visit (self st') = rest
   /\ pages_data st' = pages_data st
   /\ appends (trace st') = appends (trace st)
   /\ (gets (trace st') = gets (trace st)
       \/ gets (trace st') = (gets (trace st) ++ [url])%list))
  \/ ((url ∉ visited (self st))
      /\ visited (self st') = (visited (self st) ∪ {[url]})
      /\ gets (trace st') = (gets (trace st) ++ [url])%list
      /\ exists links,
          let new := fresh_links (visited (self st) ∪ {[url]}) rest links in
          to_visit (self st') = (rest ++ new)%list
          /\ appends (trace st') = (appends (trace st) ++ new)%list
          /\ (pages_data st' = pages_data st
              \/ exists p, pages_data st' = (pages_data st ++ [p])%list
                           /\ page_url p = url)).
Proof.
  intros [Hin|Hout Hs|Hout Hs Hf|resp e Hout Hs Hg He
          |txt links title resp Hout Hs Hg He].
  - left. simpl. repeat (split; [reflexivity|]). now left.
  - left. simpl. repeat (split; [reflexivity|]). now left.
  - left. unfold requested.
    rewrite after_get_self, after_get_pages, appends_after_get, gets_after_get.
    simpl. repeat (split; [reflexivity|]). now right.
  - right. split; [exact Hout|].
    unfold mark_visited, requested, on_self. cbn [self pages_data trace].
    rewrite after_get_self, after_get_pages, appends_after_get, gets_after_get.
    simpl. split; [reflexivity|]. split; [reflexivity|].
    exists []. simpl. rewrite !app_nil_r. auto.
  - right. split; [exact Hout|].
    rewrite enqueue_all_spec. cbv zeta.
    unfold add_page, mark_visited, requested, after_get, popped, on_self,
      set_world, log.
    simpl. destruct (bool_decide (visited (self st) ≠ ∅)); simpl;
      rewrite !appends_app, !gets_app, appends_appended, gets_appended;
      simpl; rewrite ?app_nil_r;
      (split; [reflexivity|]; split; [reflexivity|]; exists links;
       split; [reflexivity|]; split; [reflexivity|];
       right; eexists; split; reflexivity).
Qed.

End TurnEffects.

Lemma fresh_links_clean (v : gset string) (links : list string) :
  forall q,
    NoDup q -> (forall u, u ∈ q -> u ∉ v) ->
    NoDup (q ++ fresh_links v q links)
    /\ forall u, u ∈ (q ++ fresh_links v q links)%list -> u ∉ v.
Proof.
  induction links as [|l links IH]; intros q Hnd Hout; simpl.
  - rewrite app_nil_r. auto.
  - destruct (bool_decide_reflect (l ∉ v)) as [Hv|Hv]; simpl.
    + destruct (bool_decide_reflect (l ∉ q)) as [Hq|Hq]; simpl.
      * change (l :: fresh_links v (q ++ [l]) links)
          with ([l] ++ fresh_links v (q ++ [l]) links)%list.
        rewrite app_assoc. apply IH.
        -- apply NoDup_app. split; [exact Hnd|]. split.
           ++ intros x Hx Hxl. apply list_elem_of_singleton in Hxl.
              subst x. contradiction.
           ++ apply NoDup_singleton.
        -- intros u Hu. apply elem_of_app in Hu as [Hu|Hu]; [auto|].
           apply list_elem_of_singleton in Hu. now subst u.
      * now apply IH.
    + now apply IH.
Qed.

Section RunInvariants.
Context {U : UrlLib} {P : HtmlParser} {W : Type} {H : Http W}.

Lemma clean_frontier_turn (st : state W) (url : string) (rest : list string) :
  to_visit (self st) = url :: rest ->
  clean_frontier (self st) -> clean_frontier (self (iteration st)).
Proof.
  unfold clean_frontier. intros Hq [Hnd Hout]. rewrite Hq in Hnd, Hout.
  apply NoDup_cons in Hnd as [Hurl Hnd].
  destruct (turn_effect _ _ _ _ (iteration_turn st url rest Hq))
    as [(Hv & Hq' & _)|(Hfresh & Hv & _ & links & Hq' & _)];
    rewrite Hv, Hq'.
  - split; [exact Hnd|]. intros u Hu. apply Hout. now right.
  - apply fresh_links_clean; [exact Hnd|].
    intros u Hu. apply not_in_add.
    + apply Hout. now right.
    + intros ->. contradiction.
Qed.

(** X1.  The frontier of a run that starts with a frontier free of
    duplicates and of visited URLs stays so: no URL waits twice, none
    waits once visited, and the URL a turn dequeues has never been visited. *)
Theorem frontier_stays_clean (c : SimpleCrawler) (w : W) (st : state W) :
  clean_frontier c ->
  reachable (enter c w) st ->
  clean_frontier (self st)
  /\ forall url rest,
       to_visit (self st) = url :: rest ->
       (url ∉ visited (self st)) /\ (url ∉ rest).
Proof.
  intros Hc Hr.
  assert (Hclean : clean_frontier (self st)).
  { induction Hr as [|st Hr IH Hcond]; [exact Hc|].
    apply loop_cond_true in Hcond as [(url & rest & Hq) _].
    now apply (clean_frontier_turn st url rest). }
  split; [exact Hclean|].
  intros url rest Hq. destruct Hclean as [Hnd Hout]. rewrite Hq in Hnd, Hout.
  apply NoDup_cons in Hnd as [Hurl _].
  split; [apply Hout; now left | exact Hurl].
Qed.

(** The records of a run belong to distinct visited URLs, and there are no
    more of them than URLs visited during the run. *)
Lemma records_invariant (c : SimpleCrawler) (w : W) (st : state W) :
  reachable (enter c w) st ->
  NoDup (record_urls (pages_data st))
  /\ (forall u, u ∈ record_urls (pages_data st) -> u ∈ visited (self st))
  /\ (length (pages_data st) + size (visited c) <= size (visited (self st)))%nat.
Proof.
  unfold record_urls. intros Hr.
  induction Hr as [|st Hr (IHnd & IHin & IHlen) Hcond].
  { simpl. split; [constructor|]. split; [|lia].
    intros u Hu. apply elem_of_nil in Hu. destruct Hu. }
  apply loop_cond_true in Hcond as [(url & rest & Hq) _].
  destruct (turn_effect _ _ _ _ (iteration_turn st url rest Hq))
    as [(Hv & _ & Hp & _)|(Hfresh & Hv & _ & links & _ & _ & Hp)].
  - rewrite Hv, Hp. auto.
  - rewrite Hv, count_visited_add by exact Hfresh.
    destruct Hp as [Hp|(p & Hp & Hurl)]; rewrite Hp.
    + split; [exact IHnd|]. split; [|lia].
      intros u Hu. apply elem_of_union_l. auto.
    + rewrite map_app, length_app. simpl. split; [|split; [|lia]].
      * apply NoDup_app. split; [exact IHnd|]. split; [|apply NoDup_singleton].
        intros u Hu Hu'. apply list_elem_of_singleton in Hu'. subst u.
        rewrite Hurl in Hu. apply IHin in Hu. contradiction.
      * intros u Hu. apply elem_of_app in Hu as [Hu|Hu].
        -- apply elem_of_union_l. auto.
        -- apply list_elem_of_singleton in Hu. subst u. rewrite Hurl.
           apply elem_of_union_r. now apply elem_of_singleton.
Qed.

(** X2.  A run that starts within its page limit returns at most
    [max_pages] records; their URLs are pairwise different and all in the
    visited set. *)
Theorem at_most_max_pages_records (c : SimpleCrawler) (w : W) (st : state W) :
  Z.of_nat (size (visited c)) <= max_pages c ->
  reachable (enter c w) st ->
  Z.of_nat (length (pages_data st)) <= max_pages c
  /\ NoDup (record_urls (pages_data st))
  /\ forall u, u ∈ record_urls (pages_data st) -> u ∈ visited (self st).
Proof.
  intros Hc Hr.
  destruct (records_invariant c w st Hr) as (Hnd & Hin & Hlen).
  destruct (reachable_bound (enter c w) st Hc Hr) as [_ Hle].
  unfold count_visited in Hle. simpl in Hle.
  split; [lia | auto].
Qed.

(** X3.  The records come in the order of the requests: their URLs are a
    subsequence of the URLs requested. *)
Theorem records_follow_requests (c : SimpleCrawler) (w : W) (st : state W) :
  reachable (enter c w) st ->
  sublist (record_urls (pages_data st)) (gets (trace st)).
Proof.
  unfold record_urls. intros Hr.
  induction Hr as [|st Hr IH Hcond]; [constructor|].
  apply loop_cond_true in Hcond as [(url & rest & Hq) _].
  destruct (turn_effect _ _ _ _ (iteration_turn st url rest Hq))
    as [(_ & _ & Hp & _ & [Hg|Hg])|(_ & _ & Hg & links & _ & _ & Hp)];
    rewrite Hg.
  - now rewrite Hp.
  - rewrite Hp. now apply sublist_inserts_r.
  - destruct Hp as [Hp|(p & Hp & Hurl)]; rewrite Hp.
    + now apply sublist_inserts_r.
    + rewrite map_app. simpl. rewrite Hurl. now apply sublist_app.
Qed.

(** Whatever waits or has been requested was on the frontier at the start
    or has been appended since. *)
Lemma requests_come_from_frontier (c : SimpleCrawler) (w : W) (st : state W) :
  reachable (enter c w) st ->
  forall u, In u (to_visit (self st)) \/ In u (gets (trace st)) ->
    In u (to_visit c) \/ In u (appends (trace st)).
Proof.
  intros Hr. induction Hr as [|st Hr IH Hcond]; intros u Hu.
  { simpl in Hu. destruct Hu as [Hu|[]]. now left. }
  apply loop_cond_true in Hcond as [(url & rest & Hq) _].
  assert (Hurl : In url (to_visit c) \/ In url (appends (trace st))).
  { apply IH. left. rewrite Hq. now left. }
  assert (Hrest : forall x, In x rest ->
            In x (to_visit c) \/ In x (appends (trace st))).
  { intros x Hx. apply IH. left. rewrite Hq. now right. }
  destruct (turn_effect _ _ _ _ (iteration_turn st url rest Hq))
    as [(_ & Hq' & _ & Ha & Hg)|(_ & _ & Hg & links & Hq' & Ha & _)];
    cbv zeta in *; rewrite Ha; rewrite Hq' in Hu.
  - destruct Hu as [Hu|Hu]; [auto|].
    destruct Hg as [Hg|Hg]; rewrite Hg in Hu; [auto|].
    apply in_app_or in Hu as [Hu|[<-|[]]]; auto.
  - rewrite Hg in Hu.
    assert (Hweak : forall x,
              In x (to_visit c) \/ In x (appends (trace st)) ->
              In x (to_visit c)
              \/ In x (appends (trace st)
                       ++ fresh_links (visited (self st) ∪ {[url]}) rest links)).
    { intros x [Hx|Hx]; [now left | right; apply in_or_app; now left]. }
    destruct Hu as [Hu|Hu]; apply in_app_or in Hu as [Hu|Hu].
    + auto.
    + right. apply in_or_app. now right.
    + auto.
    + destruct Hu as [<-|[]]. auto.
Qed.

(** X4.  Every URL a run requests was on the frontier when the run started
    (for a fresh crawler: is the start URL) or is in scope. *)
Theorem requests_stay_in_scope (c : SimpleCrawler) (w : W) (st : state W)
  (u : string) :
  reachable (enter c w) st ->
  In u (gets (trace st)) ->
  In u (to_visit c) \/ is_valid_url (domain c) u = Ok true.
Proof.
  intros Hr Hu.
  destruct (requests_come_from_frontier c w st Hr u (or_intror Hu)) as [Hc|Ha];
    [now left | right].
  destruct (reachable_appends_valid _ _ Hr u Ha) as [[]|Hv]. exact Hv.
Qed.

Lemma no_scope_without_domain (u : string) : is_valid_url "" u <> Ok true.
Proof.
  unfold is_valid_url. destruct (urlparse u) as [parsed|e]; simpl; [|discriminate].
  destruct (netloc parsed) as [|a s]; simpl.
  - discriminate.
  - rewrite andb_false_r. discriminate.
Qed.

(** X5.  A crawler whose domain is empty (its start URL has no host) never
    appends a link to the frontier: it requests nothing but what was on the
    frontier at the start. *)
Theorem empty_domain_crawls_nothing_new (c : SimpleCrawler) (w : W)
  (st : state W) :
  domain c = "" ->
  reachable (enter c w) st ->
  appends (trace st) = []
  /\ forall u, In u (gets (trace st)) -> In u (to_visit c).
Proof.
  intros Hdom Hr.
  assert (Hnone : appends (trace st) = []).
  { destruct (appends (trace st)) as [|u l] eqn:E; [reflexivity|].
    destruct (reachable_appends_valid _ _ Hr u) as [[]|Hv].
    - rewrite E. now left.
    - simpl in Hv. rewrite Hdom in Hv. destruct (no_scope_without_domain u Hv). }
  split; [exact Hnone|]. intros u Hu.
  destruct (requests_come_from_frontier c w st Hr u (or_intror Hu)) as [Hc|Ha];
    [exact Hc|].
  rewrite Hnone in Ha. destruct Ha.
Qed.

(** X6.  When the request for the start URL of a fresh crawler fails, the
    crawl ends after that one request: no record, nothing visited, an empty
    frontier. *)
Theorem failed_start_gives_no_pages (c : SimpleCrawler) (w : W)
  (start : string) :
  visited c = ∅ -> to_visit c = [start] -> 0 < max_pages c ->
  fetch_fails w start ->
  exists st,
    crawl 1 c w = Some st
    /\ pages_data st = []
    /\ visited (self st) = ∅
    /\ to_visit (self st) = []
    /\ trace st = [EvGet start].
Proof.
  intros Hv Hq Hmax Hf.
  assert (Hs : ~ sleep_raises (enter c w)).
  { intros [Hne _]. simpl in Hne. contradiction. }
  assert (Hout : start ∉ visited (self (enter c w))).
  { simpl. rewrite Hv. apply not_elem_of_empty. }
  pose proof (iteration_fetch_failed (enter c w) start [] Hq Hout Hs Hf) as Hit.
  exists (iteration (enter c w)).
  assert (Hcond : loop_cond (enter c w) = true).
  { unfold loop_cond. simpl. rewrite Hq, Hv, size_empty. simpl.
    apply Z.ltb_lt. lia. }
  assert (Hstop : loop_cond (iteration (enter c w)) = false).
  { rewrite Hit. unfold loop_cond, requested. now rewrite after_get_self. }
  unfold crawl. simpl. rewrite Hcond, Hstop. split; [reflexivity|].
  rewrite Hit. unfold requested.
  rewrite after_get_pages, after_get_self, after_get_trace. simpl.
  rewrite Hv. repeat split; reflexivity.
Qed.

Lemma crawl_loop_ends (fuel : nat) :
  forall st st' : state W,
    crawl_loop fuel st = Some st' -> loop_cond st' = false.
Proof.
  induction fuel as [|fuel IH]; intros st st'; simpl;
    destruct (loop_cond st) eqn:Ec; try discriminate.
  - now intros [= <-].
  - apply IH.
  - now intros [= <-].
Qed.

(** X7.  A crawler object is used up by one crawl: calling [crawl] again on
    it enters no turn and returns an empty list of records. *)
Theorem second_crawl_returns_nothing (c : SimpleCrawler) (w w' : W)
  (fuel fuel' : nat) (st : state W) :
  crawl fuel c w = Some st ->
  crawl fuel' (self st) w' = Some (enter (self st) w')
  /\ pages_data (enter (self st) w') = [].
Proof.
  intros Hrun. apply crawl_loop_ends in Hrun.
  split; [|reflexivity].
  assert (Hcond : loop_cond (enter (self st) w') = false) by exact Hrun.
  unfold crawl. destruct fuel'; simpl; now rewrite Hcond.
Qed.

End RunInvariants.

(** * Further properties of the extractors *)

Lemma splitlines_from_plain (s : string) :
  forall cur,
    all_chars not_linebreak s = true ->
    PyStr.splitlines_from cur s
    = match cur ++ s with EmptyString => [] | t => [t] end.
Proof.
  induction s as [|c s IH]; intros cur Hs; simpl.
  - rewrite app_empty_r. now destruct cur.
  - simpl in Hs. apply andb_true_iff in Hs as [Hc Hs].
    unfold not_linebreak in Hc. apply negb_true_iff in Hc. rewrite Hc.
    rewrite (IH _ Hs), app_assoc_str. reflexivity.
Qed.

Lemma split_from_plain (s : string) :
  forall cur,
    has_adjacent is_SP s = false ->
    PyStr.split_from "  " O cur s = [cur ++ s].
Proof.
  induction s as [|c s IH]; intros cur Hs.
  - simpl. now rewrite app_empty_r.
  - cbn [PyStr.split_from]. rewrite prefix_two_spaces.
    simpl in Hs. apply orb_false_iff in Hs as [Hc Hs]. rewrite Hc.
    rewrite (IH _ Hs), app_assoc_str. reflexivity.
Qed.

Lemma strip_fixed (s : string) :
  first_is PyStr.isspace s = false -> last_is PyStr.isspace s = false ->
  PyStr.strip s = s.
Proof.
  intros Hf Hl. unfold PyStr.strip. rewrite (lstrip_fixed s Hf).
  now apply rstrip_fixed.
Qed.

(** A text that is already tidy goes through the cleaning lines unchanged. *)
Lemma clean_text_fixed (s : string) : tidy s -> clean_text s = s.
Proof.
  intros [Hlines Hspaces Hfirst Hlast].
  destruct s as [|c s]; [reflexivity|].
  unfold clean_text, PyStr.splitlines, PyStr.split.
  rewrite (splitlines_from_plain _ "" Hlines). rewrite append_nil.
  cbn [map flat_map]. rewrite (strip_fixed _ Hfirst Hlast).
  rewrite (split_from_plain _ "" Hspaces). rewrite append_nil.
  cbn [map]. rewrite (strip_fixed _ Hfirst Hlast). reflexivity.
Qed.

(** X8.  Cleaning is idempotent: the text [extract_text] returns is a fixed
    point of its own cleaning lines. *)
Theorem clean_text_idempotent (text : string) :
  clean_text (clean_text text) = clean_text text.
Proof. apply clean_text_fixed, clean_text_tidy. Qed.

Section LinkErrors.
Context {U : UrlLib} {P : HtmlParser}.

Lemma get_links_loop_resolves_all (dom url : string) (anchors : list element) :
  forall acc links,
    get_links_loop dom url anchors acc = Ok links ->
    forall t, In t anchors ->
      exists h u b,
        href_of t = Ok h /\ urljoin url h = Ok u /\ is_valid_url dom u = Ok b.
Proof.
  induction anchors as [|a anchors IH]; intros acc links Hrun t Ht;
    [destruct Ht|].
  simpl in Hrun.
  destruct (href_of a) as [h|e] eqn:Eh; simpl in Hrun; [|discriminate].
  destruct (urljoin url h) as [u|e] eqn:Ej; simpl in Hrun; [|discriminate].
  destruct (is_valid_url dom u) as [b|e] eqn:Ev; simpl in Hrun; [|discriminate].
  destruct Ht as [<-|Ht]; [exists h, u, b; auto|].
  exact (IH _ _ Hrun t Ht).
Qed.

(** X9.  One reference that [urljoin] refuses costs the page all its links:
    [get_links] raises instead of returning the links it could resolve. *)
Theorem one_bad_link_fails_get_links (dom url html : string) (d : soup)
  (h : string) (e : exn) :
  BeautifulSoup html = Ok d ->
  soup_has_anchor d h ->
  urljoin url h = Raise e ->
  exists e', get_links dom url html = Raise e'.
Proof.
  intros Hd Ha Hj. unfold get_links. rewrite Hd. simpl.
  destruct (get_links_soup dom url d) as [links|e'] eqn:Hrun; [|eauto].
  apply find_all_anchor in Ha as (t & Hin & Eh).
  destruct (get_links_loop_resolves_all dom url _ _ _ Hrun t Hin)
    as (h' & u & b & Eh' & Ej & _).
  congruence.
Qed.

End LinkErrors.

(** * The robots.txt check *)

Section RobotsFacts.
Context {U : UrlLib} {W : Type} {H : Http W}.

(** X10.  [can_fetch] never refuses: whenever it returns, it returns
    [True], whatever the status or the failure of the request.  It raises
    only when [urlparse] raises, or when the request raises something that
    is not a [RequestException]. *)
Theorem can_fetch_never_refuses (w : W) (url : string) :
  match snd (can_fetch w url) with
  | Ok allowed => allowed = true
  | Raise e =>
      urlparse url = Raise e
      \/ exists parsed msg,
           urlparse url = Ok parsed
           /\ snd (requests_get w (robots_url parsed)) = Raise (Exception msg)
           /\ e = Exception msg
  end.
Proof.
  unfold can_fetch. destruct (urlparse url) as [parsed|e]; simpl; [|now left].
  destruct (requests_get w (robots_url parsed)) as [w' [resp|[msg|msg]]] eqn:E;
    simpl.
  - destruct (status_code resp =? 200); reflexivity.
  - reflexivity.
  - right. exists parsed, msg. rewrite E. repeat split; reflexivity.
Qed.

End RobotsFacts.

(** * The sitemap *)

Lemma unlines_app (l1 l2 : list string) :
  unlines (l1 ++ l2) = unlines l1 ++ unlines l2.
Proof.
  induction l1 as [|a l1 IH]; [reflexivity|].
  simpl. now rewrite IH, !app_assoc_str.
Qed.

Lemma splitlines_from_line (a : string) :
  forall cur rest,
    all_chars not_linebreak a = true ->
    PyStr.splitlines_from cur (a ++ Sitemap.NL ++ rest)
    = (cur ++ a) :: PyStr.splitlines_from "" rest.
Proof.
  induction a as [|c a IH]; intros cur rest Ha.
  - rewrite append_nil, app_empty_r. unfold Sitemap.NL.
    rewrite append_cons, append_nil. simpl. now destruct rest.
  - simpl in Ha. apply andb_true_iff in Ha as [Hc Ha].
    unfold not_linebreak in Hc. apply negb_true_iff in Hc.
    rewrite append_cons. cbn [PyStr.splitlines_from]. rewrite Hc.
    rewrite (IH _ _ Ha), app_assoc_str. reflexivity.
Qed.

(** Cutting a text made of lines gives the lines back. *)
Lemma splitlines_unlines (ls : list string) :
  List.Forall (fun l => all_chars not_linebreak l = true) ls ->
  PyStr.splitlines (unlines ls) = ls.
Proof.
  unfold PyStr.splitlines. induction 1 as [|l ls Hl _ IH]; [reflexivity|].
  simpl. rewrite (splitlines_from_line l "" _ Hl), IH. reflexivity.
Qed.

Lemma sitemap_loop (bullet : string) (data : list PageRecord) :
  forall ls,
    fold_left
      (fun text page =>
         (text ++ (bullet ++ " " ++ Sitemap.format_title (page_title_field page)
                   ++ Sitemap.NL))
         ++ ("  " ++ page_url page ++ Sitemap.NL ++ Sitemap.NL))
      data (unlines ls)
    = unlines (ls ++ flat_map (entry_lines bullet) data).
Proof.
  induction data as [|page data IH]; intros ls; cbn [fold_left flat_map].
  - now rewrite app_nil_r.
  - assert (E : (unlines ls
                 ++ (bullet ++ " " ++ Sitemap.format_title (page_title_field page)
                     ++ Sitemap.NL))
                ++ ("  " ++ page_url page ++ Sitemap.NL ++ Sitemap.NL)
                = unlines (ls ++ entry_lines bullet page)).
    { rewrite unlines_app. unfold entry_lines. cbn [unlines].
      rewrite !app_assoc_str, !append_nil, app_empty_r. reflexivity. }
    rewrite E, IH, <- app_assoc. reflexivity.
Qed.

(** X11.  The sitemap can be read back line by line: when no title and no
    URL holds a line boundary, its lines are the three lines of the banner
    followed, for each record in order, by the title line, the indented URL
    line and an empty line.  A title that is [None] shows as the word None. *)
Theorem sitemap_lines (bullet : string) (data : list PageRecord) :
  all_chars not_linebreak bullet = true ->
  (forall page, In page data ->
     all_chars not_linebreak (Sitemap.format_title (page_title_field page)) = true
     /\ all_chars not_linebreak (page_url page) = true) ->
  PyStr.splitlines (Sitemap.sitemap bullet data)
  = (header_lines ++ flat_map (entry_lines bullet) data)%list.
Proof.
  intros Hb Hdata. unfold Sitemap.sitemap.
  change Sitemap.header with (unlines header_lines).
  rewrite sitemap_loop. apply splitlines_unlines.
  apply List.Forall_app. split.
  - repeat constructor.
  - apply List.Forall_forall. intros l Hl.
    apply in_flat_map in Hl as (page & Hpage & Hl).
    destruct (Hdata page Hpage) as [Ht Hu].
    destruct Hl as [<-|[<-|[<-|[]]]].
    + rewrite !all_chars_app, Hb, Ht. reflexivity.
    + rewrite all_chars_app, Hu. reflexivity.
    + reflexivity.
Qed.

(** * Further properties of the frontier *)

Section Fifo.
Context {U : UrlLib} {P : HtmlParser} {W : Type} {H : Http W}.

(** X12.  Nothing enters the visited set without a request: every visited
    URL was visited before the run or has been requested during it. *)
Theorem visited_urls_were_requested (c : SimpleCrawler) (w : W)
  (st : state W) (u : string) :
  reachable (enter c w) st ->
  u ∈ visited (self st) ->
  u ∈ visited c \/ In u (gets (trace st)).
Proof.
  intros Hr. revert u. induction Hr as [|st Hr IH Hcond]; intros u Hu;
    [now left|].
  apply loop_cond_true in Hcond as [(url & rest & Hq) _].
  destruct (turn_effect _ _ _ _ (iteration_turn st url rest Hq))
    as [(Hv & _ & _ & _ & Hg)|(_ & Hv & Hg & _)]; rewrite Hv in Hu.
  - destruct (IH u Hu) as [Hc|Hin]; [now left | right].
    destruct Hg as [Hg|Hg]; rewrite Hg; [exact Hin|].
    apply in_or_app. now left.
  - rewrite Hg. apply elem_of_union in Hu as [Hu|Hu].
    + destruct (IH u Hu) as [Hc|Hin]; [now left | right].
      apply in_or_app. now left.
    + apply elem_of_singleton in Hu. subst u. right.
      apply in_or_app. right. now left.
Qed.


End Fifo.

Section ExtractionErrors.
Context {U : UrlLib} {P : HtmlParser}.

Lemma find_all_in_tags (p : string -> list (string * string) -> bool)
  (e : element) :
  forall t, In t (Bs4.find_all_in p e) ->
    exists n a cs, t = Tag n a cs /\ p n a = true.
Proof.
  induction e as [c s|n a cs IH] using element_rect_children; intros t Ht;
    [destruct Ht|].
  rewrite List.Forall_forall in IH. cbn [Bs4.find_all_in] in Ht.
  apply in_app_or in Ht as [Ht|Ht].
  - destruct (p n a) eqn:Ep; [|destruct Ht].
    destruct Ht as [<-|[]]. eauto.
  - apply in_flat_map in Ht as (e & He & Ht). exact (IH e He t Ht).
Qed.

Lemma get_links_loop_raises (dom url : string) (anchors : list element) :
  forall acc e,
    (forall t, In t anchors -> exists h, href_of t = Ok h) ->
    get_links_loop dom url anchors acc = Raise e ->
    exists t h,
      In t anchors /\ href_of t = Ok h
      /\ (urljoin url h = Raise e
          \/ exists u, urljoin url h = Ok u /\ is_valid_url dom u = Raise e).
Proof.
  induction anchors as [|a anchors IH]; intros acc e Hhref Hrun;
    [discriminate|].
  simpl in Hrun. destruct (Hhref a (or_introl eq_refl)) as [h Eh].
  rewrite Eh in Hrun. simpl in Hrun.
  destruct (urljoin url h) as [u|e'] eqn:Ej; simpl in Hrun.
  2:{ injection Hrun as ->. exists a, h. split; [now left|]. auto. }
  destruct (is_valid_url dom u) as [b|e'] eqn:Ev; simpl in Hrun.
  2:{ injection Hrun as ->. exists a, h. split; [now left|]. split; [exact Eh|].
      right. eauto. }
  destruct (IH _ _ (fun t Ht => Hhref t (or_intror Ht)) Hrun)
    as (t & h' & Ht & Eh' & Hcause).
  exists t, h'. split; [now right|]. auto.
Qed.

(** [.string] raises exactly when the tag heads a chain of only children
    longer than the room left for nested calls. *)
Lemma string_of_raises (room : nat) :
  forall (t : element) (e : exn),
    Bs4.string_of room t = Raise e
    <-> (room < only_child_depth t)%nat /\ e = RecursionError.
Proof.
  induction room as [|room IH]; intros t e.
  - destruct t as [c s|n a [|[c s|n' a' cs'] [|c2 cs]]]; simpl;
      try (split; [discriminate | intros [Hlt _]; inversion Hlt]).
    split.
    + intros Hr. injection Hr as <-. split; [apply Nat.lt_0_succ | reflexivity].
    + intros [_ ->]. reflexivity.
  - destruct t as [c s|n a [|[c s|n' a' cs'] [|c2 cs]]];
      try (simpl; split; [discriminate | intros [Hlt _]; inversion Hlt]).
    change (Bs4.string_of (S room) (Tag n a [Tag n' a' cs']))
      with (Bs4.string_of room (Tag n' a' cs')).
    change (only_child_depth (Tag n a [Tag n' a' cs']))
      with (S (only_child_depth (Tag n' a' cs'))).
    rewrite IH. split; intros [Hlt He]; (split; [|exact He]).
    + now apply -> Nat.succ_lt_mono.
    + now apply Nat.succ_lt_mono.
Qed.

Example string_of_too_deep :
  Bs4.string_of 1
    (Tag "title" [] [Tag "b" [] [Tag "i" [] [NavigableString PlainString "x"]]])
  = Raise RecursionError
  /\ Bs4.string_of 2
       (Tag "title" [] [Tag "b" [] [Tag "i" [] [NavigableString PlainString "x"]]])
     = Ok (Some "x").
Proof. split; reflexivity. Qed.

(** X13.  Once the page is parsed, the extraction can only fail on a link
    or on the title: when it raises, either the page holds a reference that
    [urljoin] refuses, or whose resolution [urlparse] refuses, and the
    exception is that one; or every link resolves, the title tag heads a
    chain of only children longer than the recursion limit leaves room for,
    and the exception is [RecursionError]. *)
Theorem extraction_fails_only_on_a_link (dom url html : string) (d : soup)
  (e : exn) :
  BeautifulSoup html = Ok d ->
  extraction dom url html = Raise e ->
  (exists h,
     soup_has_anchor d h
     /\ (urljoin url h = Raise e
         \/ exists u, urljoin url h = Ok u /\ is_valid_url dom u = Raise e))
  \/ ((exists links, get_links dom url html = Ok links)
      /\ exists t,
           Bs4.title d = Some t
           /\ (recursion_room < only_child_depth t)%nat
           /\ e = RecursionError).
Proof.
  intros Hd Hext. unfold extraction, extract_text, get_links, page_title in *.
  rewrite Hd in *. simpl in Hext. simpl.
  destruct (get_links_soup dom url d) as [links|e'] eqn:Hrun; simpl in Hext.
  { right. split; [eauto|]. unfold title_of_soup in Hext.
    destruct (Bs4.title d) as [t|]; simpl in Hext; [|discriminate].
    destruct (Bs4.string_of recursion_room t) as [title|e'] eqn:Hs;
      simpl in Hext; [discriminate|].
    injection Hext as ->. exists t. split; [reflexivity|].
    now apply string_of_raises. }
  left. injection Hext as ->. unfold get_links_soup in Hrun.
  apply get_links_loop_raises in Hrun as (t & h & Ht & Eh & Hcause).
  - exists h. split; [|exact Hcause]. apply find_all_anchor. eauto.
  - intros t Ht. unfold Bs4.find_all in Ht.
    apply in_flat_map in Ht as (el & _ & Ht).
    apply find_all_in_tags in Ht as (n & a & cs & -> & Hp).
    apply has_href_true in Hp as [_ [h Eh]]. exists h. simpl. now rewrite Eh.
Qed.

End ExtractionErrors.

(** * The further properties on the sample site *)

Lemma sample_fresh_clean (start dom : string) (max d : Z) :
  clean_frontier (Sample.fresh start dom max d).
Proof.
  split; [apply NoDup_singleton|]. intros u _. apply not_elem_of_empty.
Qed.

Lemma sample_reach_one (c : SimpleCrawler) :
  loop_cond (enter c O) = true ->
  reachable (U := Sample.urls) (P := Sample.parser) (H := Sample.site)
    (enter c O)
    (iteration (U := Sample.urls) (P := Sample.parser) (H := Sample.site)
       (enter c O)).
Proof. intros Hc. apply reach_turn; [apply reach_start | exact Hc]. Qed.

Lemma sample_reach_two (c : SimpleCrawler) :
  loop_cond (enter c O) = true ->
  loop_cond (after_turns (U := Sample.urls) (P := Sample.parser)
               (H := Sample.site) c O 1) = true ->
  reachable (U := Sample.urls) (P := Sample.parser) (H := Sample.site)
    (enter c O)
    (after_turns (U := Sample.urls) (P := Sample.parser) (H := Sample.site)
       c O 2).
Proof.
  intros H0 H1. apply (reach_turn _ (after_turns c O 1)); [|exact H1].
  now apply sample_reach_one.
Qed.

(** X1 after the first turn on the sample site. *)
Lemma frontier_stays_clean_sample :
  clean_frontier (self (sample_first_turn Sample.home))
  /\ forall url rest,
       to_visit (self (sample_first_turn Sample.home)) = url :: rest ->
       (url ∉ visited (self (sample_first_turn Sample.home))) /\ (url ∉ rest).
Proof.
  apply (frontier_stays_clean
           (U := Sample.urls) (P := Sample.parser) (H := Sample.site)
           (Sample.fresh Sample.home "example.com" 5 1) O).
  - apply sample_fresh_clean.
  - now apply sample_reach_one.
Defined.

(** X2 after the first turn on the sample site. *)
Lemma at_most_max_pages_records_sample :
  Z.of_nat (length (pages_data (sample_first_turn Sample.home))) <= 5
  /\ NoDup (record_urls (pages_data (sample_first_turn Sample.home)))
  /\ forall u,
       u ∈ record_urls (pages_data (sample_first_turn Sample.home)) ->
       u ∈ visited (self (sample_first_turn Sample.home)).
Proof.
  apply (at_most_max_pages_records
           (U := Sample.urls) (P := Sample.parser) (H := Sample.site)
           (Sample.fresh Sample.home "example.com" 5 1) O).
  - vm_compute. discriminate.
  - now apply sample_reach_one.
Defined.

(** X3 after two turns on the sample site. *)
Lemma records_follow_requests_sample :
  sublist
    (record_urls
       (pages_data (after_turns (U := Sample.urls) (P := Sample.parser)
                      (H := Sample.site)
                      (Sample.fresh Sample.home "example.com" 5 1) O 2)))
    (gets
       (trace (after_turns (U := Sample.urls) (P := Sample.parser)
                 (H := Sample.site)
                 (Sample.fresh Sample.home "example.com" 5 1) O 2))).
Proof.
  apply (records_follow_requests
           (U := Sample.urls) (P := Sample.parser) (H := Sample.site)
           (Sample.fresh Sample.home "example.com" 5 1) O).
  apply sample_reach_two; reflexivity.
Defined.

(** X4 for the second request on the sample site. *)
Lemma requests_stay_in_scope_sample :
  In "http://example.com/a" (to_visit (Sample.fresh Sample.home "example.com" 5 1))
  \/ is_valid_url (U := Sample.urls) "example.com" "http://example.com/a"
     = Ok true.
Proof.
  apply (requests_stay_in_scope
           (U := Sample.urls) (P := Sample.parser) (H := Sample.site)
           (Sample.fresh Sample.home "example.com" 5 1) O
           (after_turns (U := Sample.urls) (P := Sample.parser)
              (H := Sample.site)
              (Sample.fresh Sample.home "example.com" 5 1) O 2)).
  - apply sample_reach_two; reflexivity.
  - vm_compute. right. left. reflexivity.
Defined.

(** X5 for a start URL without scheme or host. *)
Lemma empty_domain_crawls_nothing_new_sample :
  appends
    (trace (iteration (U := Sample.urls) (P := Sample.parser) (H := Sample.site)
              (enter (Sample.fresh "example.com" "" 5 1) O))) = []
  /\ forall u,
       In u (gets
               (trace (iteration (U := Sample.urls) (P := Sample.parser)
                         (H := Sample.site)
                         (enter (Sample.fresh "example.com" "" 5 1) O)))) ->
       In u (to_visit (Sample.fresh "example.com" "" 5 1)).
Proof.
  apply (empty_domain_crawls_nothing_new
           (U := Sample.urls) (P := Sample.parser) (H := Sample.site)
           (Sample.fresh "example.com" "" 5 1) O).
  - reflexivity.
  - now apply sample_reach_one.
Defined.

(** X6 for a start URL that answers 404. *)
Lemma failed_start_gives_no_pages_sample :
  exists st,
    crawl (U := Sample.urls) (P := Sample.parser) (H := Sample.site)
      1 (Sample.fresh "http://example.com/missing" "example.com" 5 1) O
    = Some st
    /\ pages_data st = []
    /\ visited (self st) = ∅
    /\ to_visit (self st) = []
    /\ trace st = [EvGet "http://example.com/missing"].
Proof.
  apply (failed_start_gives_no_pages
           (U := Sample.urls) (P := Sample.parser) (H := Sample.site)
           (Sample.fresh "http://example.com/missing" "example.com" 5 1) O
           "http://example.com/missing").
  - reflexivity.
  - reflexivity.
  - simpl. lia.
  - unfold fetch_fails. simpl. discriminate.
Defined.

(** X7 after a crawl of the sample site with a limit of three pages. *)
Lemma second_crawl_returns_nothing_sample :
  crawl (U := Sample.urls) (P := Sample.parser) (H := Sample.site) 5
    (self (after_turns (U := Sample.urls) (P := Sample.parser)
             (H := Sample.site)
             (Sample.fresh Sample.home "example.com" 3 1) O 3)) O
  = Some (enter
            (self (after_turns (U := Sample.urls) (P := Sample.parser)
                     (H := Sample.site)
                     (Sample.fresh Sample.home "example.com" 3 1) O 3)) O)
  /\ pages_data
       (enter
          (self (after_turns (U := Sample.urls) (P := Sample.parser)
                   (H := Sample.site)
                   (Sample.fresh Sample.home "example.com" 3 1) O 3)) O) = [].
Proof.
  apply (second_crawl_returns_nothing
           (U := Sample.urls) (P := Sample.parser) (H := Sample.site)
           (Sample.fresh Sample.home "example.com" 3 1) O O 10 5).
  vm_compute. reflexivity.
Defined.

(** X9 and X13 on the page with a link that [urljoin] refuses. *)
Lemma sample_broken_anchor :
  soup_has_anchor
    (Sample.page (Sample.title_tag "X") [Sample.a_tag "http://[::1" "x"])
    "http://[::1".
Proof.
  apply find_all_anchor.
  exists (Sample.a_tag "http://[::1" "x"). split; [now left | reflexivity].
Qed.

Lemma one_bad_link_fails_get_links_sample :
  exists e',
    get_links (U := Sample.urls) (P := Sample.parser)
      "example.com" "http://example.com/broken" Sample.broken_html = Raise e'.
Proof.
  apply (one_bad_link_fails_get_links
           (U := Sample.urls) (P := Sample.parser)
           "example.com" "http://example.com/broken" Sample.broken_html
           (Sample.page (Sample.title_tag "X") [Sample.a_tag "http://[::1" "x"])
           "http://[::1" (Exception "ValueError: Invalid IPv6 URL")).
  - reflexivity.
  - apply sample_broken_anchor.
  - reflexivity.
Defined.

Lemma extraction_fails_only_on_a_link_sample :
  (exists h,
     soup_has_anchor
       (Sample.page (Sample.title_tag "X") [Sample.a_tag "http://[::1" "x"]) h
     /\ (urljoin (UrlLib := Sample.urls) "http://example.com/broken" h
         = Raise (Exception "ValueError: Invalid IPv6 URL")
         \/ exists u,
              urljoin (UrlLib := Sample.urls) "http://example.com/broken" h = Ok u
              /\ is_valid_url (U := Sample.urls) "example.com" u
                 = Raise (Exception "ValueError: Invalid IPv6 URL")))
  \/ ((exists links,
         get_links (U := Sample.urls) (P := Sample.parser)
           "example.com" "http://example.com/broken" Sample.broken_html
         = Ok links)
      /\ exists t,
           Bs4.title
             (Sample.page (Sample.title_tag "X")
                [Sample.a_tag "http://[::1" "x"]) = Some t
           /\ (recursion_room (HtmlParser := Sample.parser)
               < only_child_depth t)%nat
           /\ Exception "ValueError: Invalid IPv6 URL" = RecursionError).
Proof.
  apply (extraction_fails_only_on_a_link
           (U := Sample.urls) (P := Sample.parser)
           "example.com" "http://example.com/broken" Sample.broken_html).
  - reflexivity.
  - reflexivity.
Defined.

(** X11 for two records, one of them without a title string. *)
Lemma sitemap_lines_sample :
  PyStr.splitlines
    (Sitemap.sitemap "*"
       [{| page_url := "http://example.com/"; page_title_field := Some "Home";
           text_length := 7; links_found := 2 |};
        {| page_url := "http://example.com/untitled"; page_title_field := None;
           text_length := 1; links_found := 0 |}])
  = (header_lines
     ++ flat_map (entry_lines "*")
          [{| page_url := "http://example.com/"; page_title_field := Some "Home";
              text_length := 7; links_found := 2 |};
           {| page_url := "http://example.com/untitled";
              page_title_field := None;
              text_length := 1; links_found := 0 |}])%list.
Proof.
  apply (sitemap_lines "*").
  - reflexivity.
  - intros page [<-|[<-|[]]]; split; reflexivity.
Defined.

(** X12 after the first turn on the sample site. *)
Lemma visited_urls_were_requested_sample :
  Sample.home ∈ visited (Sample.fresh Sample.home "example.com" 5 1)
  \/ In Sample.home (gets (trace (sample_first_turn Sample.home))).
Proof.
  apply (visited_urls_were_requested
           (U := Sample.urls) (P := Sample.parser) (H := Sample.site)
           (Sample.fresh Sample.home "example.com" 5 1) O
           (sample_first_turn Sample.home)).
  - now apply sample_reach_one.
  - apply elem_of_union_r. now apply elem_of_singleton.
Defined.

